(** * Screen + audio recorder: the recording-session orchestrator

    A shallow embedding of [src/app/page.tsx] (the [Home] component): its
    React state, its two refs, the four callbacks [startRecording],
    [stopRecording], [downloadRecording], [resetRecording], the handlers
    the first one installs on the platform objects, and the effect that
    derives the preview URL.

    The browser is modelled as an explicit [World]: tables of the objects
    the component creates (tracks, audio contexts, media recorders, object
    URLs) and logs of the calls it makes on them ([track.stop()],
    [audioContext.close()], downloads).  Callbacks are state transformers
    [Sys -> Sys]; the body of the [try] block of [startRecording] lives in a
    small state-and-exception monad [Js], since every platform call in it
    may throw.

    Two modelling decisions are stated once here and used throughout.
    - A callback runs to completion before the next one starts.  The
      suspension points of [startRecording] (the two [await]s) and the task
      a [MediaRecorder] queues on [stop()] are run in place, so no other
      handler is interleaved with them.
    - A callback created by a render sees the state variables of that
      render.  The variables a callback closes over are parameters of its
      definition (Section [Render]); the interface always invokes the
      callbacks of the current render, a handler stored on a platform
      object keeps the ones it was created with. *)

From Stdlib Require Import Strings.Byte Lia.
From stdpp Require Import base list strings.

Open Scope string_scope.
Open Scope list_scope.

(** ** Data *)

(** A [Blob]: its bytes and its media type. [new Blob(parts, {type})]
    concatenates the parts in order. *)
Record Blob := mkBlob { blob_bytes : list byte; blob_type : string }.

Definition blob_size (b : Blob) : nat := length (blob_bytes b).

Definition Blob_new (parts : list Blob) (type : string) : Blob :=
  mkBlob (concat (map blob_bytes parts)) type.

Inductive TrackKind := Video | Audio.

Record Track := mkTrack { track_id : nat; track_kind : TrackKind }.

(** A [MediaStream] is the sequence of its tracks;
    [new MediaStream(tracks)] is that sequence. *)
Definition MediaStream := list Track.

Definition is_video (t : Track) : bool :=
  match track_kind t with Video => true | Audio => false end.
Definition is_audio (t : Track) : bool :=
  match track_kind t with Audio => true | Video => false end.

Definition getVideoTracks (m : MediaStream) : list Track := List.filter is_video m.
Definition getAudioTracks (m : MediaStream) : list Track := List.filter is_audio m.
Definition getTracks (m : MediaStream) : list Track := m.

(** An [AudioContext] together with the one [MediaStreamAudioDestinationNode]
    the component creates on it: the destination's stream, and the streams
    of the source nodes connected into the destination, in connection
    order. *)
Record AudioContext := mkAudioContext {
  destination_stream : MediaStream;
  connected : list MediaStream
}.

Inductive RecorderState := inactive | recording.

(** What the [onstop] closure of a recorder captured: the two device
    streams and the audio context of its call of [startRecording]. *)
Record StopEnv := mkStopEnv {
  env_screen : MediaStream;
  env_mic : MediaStream;
  env_ctx : nat
}.

Record MediaRecorder := mkMediaRecorder {
  rec_stream : MediaStream;
  rec_mimeType : string;
  rec_state : RecorderState;
  rec_timeslice : option nat;        (* [Some n] once [start(n)] was called *)
  rec_ondataavailable : bool;        (* is the handler of line 85 installed *)
  rec_onstop : option StopEnv        (* the handler of line 91, if installed *)
}.

(** The part of the browser the component touches. Objects are named by
    numbers: a track by its [track_id], an audio context and a recorder by
    its position in the table, an object URL by its number. *)
Record World := mkWorld {
  next_track : nat;                       (* the next unused track id *)
  stops : list nat;                       (* [track.stop()] calls, latest first *)
  ended : list nat;                       (* tracks ended by the platform *)
  contexts : list AudioContext;
  closes : list nat;                      (* [audioContext.close()] calls, latest first *)
  recorders : list MediaRecorder;
  onended : list (nat * bool);            (* track id, and the [isRecording] its handler captured *)
  next_url : nat;
  urls : list (nat * Blob);               (* object URLs not yet revoked *)
  downloads : list (string * option Blob) (* clicked download links, latest first *)
}.

(** The five [useState] cells (lines 6-10). *)
Record State := mkState {
  isRecording : bool;
  recordedBlob : option Blob;
  error : string;
  status : string;
  previewUrl : option nat
}.

(** The whole system: React state, the two refs (lines 12-13), what React
    keeps for the effect of lines 151-157 (whether its dependency changed
    since it last ran, and the URL its cleanup will revoke), and the
    browser. *)
Record Sys := mkSys {
  st : State;
  mediaRecorderRef : option nat;
  recordedChunks : list Blob;
  depsChanged : bool;
  effectUrl : option nat;
  world : World
}.

(** A thrown JavaScript value, as far as the [catch] of line 115 looks at
    it: an [Error] instance with its [message], or anything else. *)
Inductive Thrown := ErrorObj (message : string) | NonError.

(** How the platform answers one call of [startRecording]. [None] in a
    failure field means the call succeeds. [getDisplayMedia] resolves with
    a stream of one video track and [n] audio tracks, [getUserMedia] with
    a stream of one audio track. *)
Record Platform := mkPlatform {
  has_mediaDevices : bool;
  has_getDisplayMedia : bool;
  isSecureContext : bool;
  displayMedia : Thrown + nat;
  userMedia : option Thrown;
  audioContextCtor : option Thrown;
  mediaRecorderCtor : option Thrown;
  mediaRecorderStart : option Thrown
}.

(** ** State updates *)

Definition with_st (f : State -> State) (s : Sys) : Sys :=
  mkSys (f (st s)) (mediaRecorderRef s) (recordedChunks s) (depsChanged s)
        (effectUrl s) (world s).

Definition with_world (f : World -> World) (s : Sys) : Sys :=
  mkSys (st s) (mediaRecorderRef s) (recordedChunks s) (depsChanged s)
        (effectUrl s) (f (world s)).

Definition setIsRecording (v : bool) : Sys -> Sys :=
  with_st (fun t => mkState v (recordedBlob t) (error t) (status t) (previewUrl t)).

Definition setError (v : string) : Sys -> Sys :=
  with_st (fun t => mkState (isRecording t) (recordedBlob t) v (status t) (previewUrl t)).

Definition setStatus (v : string) : Sys -> Sys :=
  with_st (fun t => mkState (isRecording t) (recordedBlob t) (error t) v (previewUrl t)).

Definition setPreviewUrl (v : option nat) : Sys -> Sys :=
  with_st (fun t => mkState (isRecording t) (recordedBlob t) (error t) (status t) v).

(** [setRecordedBlob] also records whether the dependency of the effect
    changed. A non-null argument is always a [Blob] object made just
    before the call (line 92), hence different from the previous value;
    [null] differs from the previous value unless that was [null] too. *)
Definition setRecordedBlob (v : option Blob) (s : Sys) : Sys :=
  let changed :=
    match v, recordedBlob (st s) with
    | None, None => false
    | _, _ => true
    end in
  mkSys (mkState (isRecording (st s)) v (error (st s)) (status (st s)) (previewUrl (st s)))
        (mediaRecorderRef s) (recordedChunks s) (depsChanged s || changed)
        (effectUrl s) (world s).

Definition set_mediaRecorderRef (v : option nat) (s : Sys) : Sys :=
  mkSys (st s) v (recordedChunks s) (depsChanged s) (effectUrl s) (world s).

Definition set_recordedChunks (v : list Blob) (s : Sys) : Sys :=
  mkSys (st s) (mediaRecorderRef s) v (depsChanged s) (effectUrl s) (world s).

Definition set_effect (changed : bool) (url : option nat) (s : Sys) : Sys :=
  mkSys (st s) (mediaRecorderRef s) (recordedChunks s) changed url (world s).

Definition set_next_track (v : nat) : World -> World := fun w =>
  mkWorld v (stops w) (ended w) (contexts w) (closes w) (recorders w)
          (onended w) (next_url w) (urls w) (downloads w).

Definition set_stops (v : list nat) : World -> World := fun w =>
  mkWorld (next_track w) v (ended w) (contexts w) (closes w) (recorders w)
          (onended w) (next_url w) (urls w) (downloads w).

Definition set_ended (v : list nat) : World -> World := fun w =>
  mkWorld (next_track w) (stops w) v (contexts w) (closes w) (recorders w)
          (onended w) (next_url w) (urls w) (downloads w).

Definition set_contexts (v : list AudioContext) : World -> World := fun w =>
  mkWorld (next_track w) (stops w) (ended w) v (closes w) (recorders w)
          (onended w) (next_url w) (urls w) (downloads w).

Definition set_closes (v : list nat) : World -> World := fun w =>
  mkWorld (next_track w) (stops w) (ended w) (contexts w) v (recorders w)
          (onended w) (next_url w) (urls w) (downloads w).

Definition set_recorders (v : list MediaRecorder) : World -> World := fun w =>
  mkWorld (next_track w) (stops w) (ended w) (contexts w) (closes w) v
          (onended w) (next_url w) (urls w) (downloads w).

Definition set_onended (v : list (nat * bool)) : World -> World := fun w =>
  mkWorld (next_track w) (stops w) (ended w) (contexts w) (closes w) (recorders w)
          v (next_url w) (urls w) (downloads w).

Definition set_urls (n : nat) (v : list (nat * Blob)) : World -> World := fun w =>
  mkWorld (next_track w) (stops w) (ended w) (contexts w) (closes w) (recorders w)
          (onended w) n v (downloads w).

Definition set_downloads (v : list (string * option Blob)) : World -> World := fun w =>
  mkWorld (next_track w) (stops w) (ended w) (contexts w) (closes w) (recorders w)
          (onended w) (next_url w) (urls w) v.

(** ** The platform calls without failure modes *)

(** [array.forEach(f)] for an [f] that updates the system. *)
Definition forEach {A} (l : list A) (f : A -> Sys -> Sys) (s : Sys) : Sys :=
  fold_left (fun acc x => f x acc) l s.

Definition track_stop (t : Track) : Sys -> Sys :=
  with_world (fun w => set_stops (track_id t :: stops w) w).

Definition AudioContext_close (c : nat) : Sys -> Sys :=
  with_world (fun w => set_closes (c :: closes w) w).

Definition createObjectURL (b : Blob) (s : Sys) : nat * Sys :=
  let u := next_url (world s) in
  (u, with_world (fun w => set_urls (S u) ((u, b) :: urls w) w) s).

Definition revokeObjectURL (u : nat) : Sys -> Sys :=
  with_world (fun w =>
    set_urls (next_url w) (List.filter (fun p => negb (Nat.eqb (fst p) u)) (urls w)) w).

Definition url_blob (u : nat) (w : World) : option Blob :=
  snd <$> find (fun p => Nat.eqb (fst p) u) (urls w).

(** A track is live until [stop()] is called on it or the platform ends
    it. *)
Definition track_live (w : World) (t : Track) : bool :=
  negb (existsb (Nat.eqb (track_id t)) (stops w))
  && negb (existsb (Nat.eqb (track_id t)) (ended w)).

(** ** The handlers installed by [startRecording] *)

(** Lines 85-89. *)
Definition ondataavailable (data : Blob) (s : Sys) : Sys :=
  if Nat.ltb 0 (blob_size data)
  then set_recordedChunks (recordedChunks s ++ [data]) s
  else s.

(** Lines 91-102; [env] holds [screenStream], [micStream] and
    [audioContext] of the call that installed the handler. *)
Definition onstop (env : StopEnv) (s : Sys) : Sys :=
  let blob := Blob_new (recordedChunks s) "video/webm" in
  let s := setRecordedBlob (Some blob) s in
  let s := setStatus "Recording completed" s in
  let s := forEach (getTracks (env_screen env)) track_stop s in
  let s := forEach (getTracks (env_mic env)) track_stop s in
  AudioContext_close (env_ctx env) s.

Definition set_rec_state (v : RecorderState) (timeslice : option nat)
    (rc : MediaRecorder) : MediaRecorder :=
  mkMediaRecorder (rec_stream rc) (rec_mimeType rc) v timeslice
                  (rec_ondataavailable rc) (rec_onstop rc).

Definition set_rec_ondataavailable (rc : MediaRecorder) : MediaRecorder :=
  mkMediaRecorder (rec_stream rc) (rec_mimeType rc) (rec_state rc) (rec_timeslice rc)
                  true (rec_onstop rc).

Definition set_rec_onstop (env : StopEnv) (rc : MediaRecorder) : MediaRecorder :=
  mkMediaRecorder (rec_stream rc) (rec_mimeType rc) (rec_state rc) (rec_timeslice rc)
                  (rec_ondataavailable rc) (Some env).

(** [recorder.stop()]. On an inactive recorder it does nothing. On a
    recording one it makes the recorder inactive and fires
    [dataavailable] with the data gathered since the last segment
    ([flush], possibly empty), then [stop]. *)
Definition MediaRecorder_stop (r : nat) (flush : Blob) (s : Sys) : Sys :=
  match recorders (world s) !! r with
  | Some rc =>
      match rec_state rc with
      | recording =>
          let s := with_world (fun w =>
                     set_recorders
                       (<[r := set_rec_state inactive (rec_timeslice rc) rc]> (recorders w)) w) s in
          let s := if rec_ondataavailable rc then ondataavailable flush s else s in
          match rec_onstop rc with
          | Some env => onstop env s
          | None => s
          end
      | inactive => s
      end
  | None => s
  end.

(** ** Exceptions: the [try] block *)

Inductive Completion (A : Type) :=
| Normal (a : A)
| Abrupt (e : Thrown).
Arguments Normal {A} a.
Arguments Abrupt {A} e.

Definition Js (A : Type) : Type := Sys -> Sys * Completion A.

Definition ret {A} (a : A) : Js A := fun s => (s, Normal a).

Definition throw {A} (e : Thrown) : Js A := fun s => (s, Abrupt e).

Definition bind {A B} (m : Js A) (k : A -> Js B) : Js B := fun s =>
  match m s with
  | (s', Normal a) => k a s'
  | (s', Abrupt e) => (s', Abrupt e)
  end.

Definition lift (f : Sys -> Sys) : Js unit := fun s => (f s, Normal tt).

Definition tryCatch (body : Js unit) (handler : Thrown -> Sys -> Sys) (s : Sys) : Sys :=
  match body s with
  | (s', Normal _) => s'
  | (s', Abrupt e) => handler e s'
  end.

Notation "x <- m ;; k" := (bind m (fun x => k))
  (at level 100, m at next level, right associativity).
Notation "m ;; k" := (bind m (fun _ => k))
  (at level 100, right associativity).

(** A call that fails when the platform says so. *)
Definition may_throw (o : option Thrown) : Js unit :=
  match o with
  | Some e => throw e
  | None => ret tt
  end.

(** [navigator.mediaDevices.getDisplayMedia(...)], awaited: a new stream
    of one video track and as many audio tracks as the platform grants. *)
Definition getDisplayMedia (p : Platform) : Js MediaStream := fun s =>
  match displayMedia p with
  | inl e => (s, Abrupt e)
  | inr n =>
      let t0 := next_track (world s) in
      (with_world (set_next_track (S t0 + n)) s,
       Normal (mkTrack t0 Video :: map (fun i => mkTrack i Audio) (seq (S t0) n)))
  end.

(** [navigator.mediaDevices.getUserMedia({audio})], awaited. *)
Definition getUserMedia (p : Platform) : Js MediaStream := fun s =>
  match userMedia p with
  | Some e => (s, Abrupt e)
  | None =>
      let t0 := next_track (world s) in
      (with_world (set_next_track (S t0)) s, Normal [mkTrack t0 Audio])
  end.

(** [new AudioContext()]. *)
Definition AudioContext_new (p : Platform) : Js nat := fun s =>
  match audioContextCtor p with
  | Some e => (s, Abrupt e)
  | None =>
      (with_world (fun w => set_contexts (contexts w ++ [mkAudioContext [] []]) w) s,
       Normal (length (contexts (world s))))
  end.

(** [audioContext.createMediaStreamDestination()]: the destination's stream
    carries one new audio track. *)
Definition createMediaStreamDestination (c : nat) : Js unit := fun s =>
  let t0 := next_track (world s) in
  (with_world (fun w =>
     set_next_track (S t0)
       (set_contexts
          (alter (fun a => mkAudioContext [mkTrack t0 Audio] (connected a)) c (contexts w)) w)) s,
   Normal tt).

(** [audioContext.createMediaStreamSource(stream).connect(destination)]. *)
Definition connect_source (c : nat) (stream : MediaStream) : Js unit :=
  lift (with_world (fun w =>
    set_contexts
      (alter (fun a => mkAudioContext (destination_stream a) (connected a ++ [stream]))
             c (contexts w)) w)).

(** [destination.stream]. *)
Definition destination_of (c : nat) : Js MediaStream := fun s =>
  (s, Normal (default [] (destination_stream <$> contexts (world s) !! c))).

(** [new MediaRecorder(stream, {mimeType})]. *)
Definition MediaRecorder_new (p : Platform) (stream : MediaStream) (mimeType : string)
    : Js nat := fun s =>
  match mediaRecorderCtor p with
  | Some e => (s, Abrupt e)
  | None =>
      (with_world (fun w =>
         set_recorders
           (recorders w ++ [mkMediaRecorder stream mimeType inactive None false None]) w) s,
       Normal (length (recorders (world s))))
  end.

Definition alter_recorder (r : nat) (f : MediaRecorder -> MediaRecorder) : Js unit :=
  lift (with_world (fun w => set_recorders (alter f r (recorders w)) w)).

(** [recorder.start(timeslice)]. *)
Definition MediaRecorder_start (p : Platform) (r : nat) (timeslice : nat) : Js unit :=
  may_throw (mediaRecorderStart p) ;;
  alter_recorder r (set_rec_state recording (Some timeslice)).

(** ** The callbacks of one render *)

Section Render.

(** The state variables as the render that created the callbacks saw
    them: [useCallback] with the dependency lists of lines 120, 127 and
    141 hands out a callback that closes over exactly these values. *)
Variable isRecording_r : bool.
Variable recordedBlob_r : option Blob.

(** Lines 122-127. *)
Definition stopRecording (flush : Blob) (s : Sys) : Sys :=
  match mediaRecorderRef s with
  | Some r =>
      if isRecording_r
      then setIsRecording false (MediaRecorder_stop r flush s)
      else s
  | None => s
  end.

(** Lines 105-109: the handler put on the display's video track. Both
    [isRecording] and [stopRecording] are those of the render whose
    [startRecording] runs. *)
Definition videoTrack_onended (flush : Blob) (s : Sys) : Sys :=
  if isRecording_r then stopRecording flush s else s.

(** Lines 18-113, the [try] block. *)
Definition startRecording_try (p : Platform) : Js unit :=
  lift (setError "") ;;
  lift (setStatus "Checking compatibility...") ;;
  (if negb (has_mediaDevices p) || negb (has_getDisplayMedia p)
   then throw (ErrorObj "Screen recording is not supported in this browser. Please use Chrome, Edge, or Firefox.")
   else ret tt) ;;
  (if negb (isSecureContext p)
   then throw (ErrorObj "Screen recording requires HTTPS or localhost. Please access this page over HTTPS.")
   else ret tt) ;;
  lift (setStatus "Requesting permissions...") ;;
  screenStream <- getDisplayMedia p ;;
  micStream <- getUserMedia p ;;
  audioContext <- AudioContext_new p ;;
  createMediaStreamDestination audioContext ;;
  (match getAudioTracks screenStream with
   | screenAudioTrack :: _ => connect_source audioContext [screenAudioTrack]
   | [] => ret tt
   end) ;;
  connect_source audioContext micStream ;;
  destinationStream <- destination_of audioContext ;;
  let combinedStream := getVideoTracks screenStream ++ getAudioTracks destinationStream in
  lift (set_recordedChunks []) ;;
  mediaRecorder <- MediaRecorder_new p combinedStream "video/webm;codecs=vp9,opus" ;;
  lift (set_mediaRecorderRef (Some mediaRecorder)) ;;
  alter_recorder mediaRecorder set_rec_ondataavailable ;;
  alter_recorder mediaRecorder (set_rec_onstop (mkStopEnv screenStream micStream audioContext)) ;;
  (match getVideoTracks screenStream with
   | videoTrack :: _ =>
       lift (with_world (fun w =>
         set_onended ((track_id videoTrack, isRecording_r) :: onended w) w))
   | [] => throw (ErrorObj "Cannot set properties of undefined (setting 'onended')")
   end) ;;
  MediaRecorder_start p mediaRecorder 100 ;;
  lift (setIsRecording true) ;;
  lift (setStatus "Recording in progress...").

(** Lines 115-119, the [catch] block ([console.error] is not modelled). *)
Definition startRecording_catch (err : Thrown) (s : Sys) : Sys :=
  let s := setError ("Failed to start recording: " +:+
                     match err with
                     | ErrorObj message => message
                     | NonError => "Unknown error"
                     end) s in
  setStatus "Ready to record" s.

(** Lines 16-120. *)
Definition startRecording (p : Platform) : Sys -> Sys :=
  tryCatch (startRecording_try p) startRecording_catch.

(** Lines 129-141. [iso] is [new Date().toISOString()]. The anchor is
    appended to the document body before the click and removed after
    it; what remains of it is the download it triggered. *)
Definition downloadRecording (iso : string) (s : Sys) : Sys :=
  match recordedBlob_r with
  | Some blob =>
      let (url, s) := createObjectURL blob s in
      let name := "screen-recording-" +:+ String.substring 0 19 iso +:+ ".webm" in
      let s := with_world (fun w =>
                 set_downloads ((name, url_blob url w) :: downloads w) w) s in
      revokeObjectURL url s
  | None => s
  end.

End Render.

(** Lines 143-148. *)
Definition resetRecording (s : Sys) : Sys :=
  let s := setRecordedBlob None s in
  let s := setPreviewUrl None s in
  let s := setStatus "Ready to record" s in
  setError "" s.

(** Lines 151-157, run by React after a render in which [recordedBlob]
    changed: first the cleanup the previous run returned, then the body. *)
Definition useEffect_recordedBlob (s : Sys) : Sys :=
  if depsChanged s then
    let s := match effectUrl s with
             | Some url => revokeObjectURL url s
             | None => s
             end in
    match recordedBlob (st s) with
    | Some blob =>
        let (url, s) := createObjectURL blob s in
        set_effect false (Some url) (setPreviewUrl (Some url) s)
    | None => set_effect false None s
    end
  else s.

(** ** Events *)

(** What can happen to the mounted component: the four controls of the
    interface, a [dataavailable] event on a recorder, and the platform
    ending a track (the browser's own stop-sharing control). *)
Inductive Event :=
| EvStart (p : Platform)
| EvStop (flush : Blob)
| EvDownload (iso : string)
| EvReset
| EvData (r : nat) (data : Blob)
| EvEnded (t : nat) (flush : Blob).

(** A [dataavailable] event reaches the handler of a recorder that is
    recording. *)
Definition fire_dataavailable (r : nat) (data : Blob) (s : Sys) : Sys :=
  match recorders (world s) !! r with
  | Some rc =>
      match rec_state rc with
      | recording => if rec_ondataavailable rc then ondataavailable data s else s
      | inactive => s
      end
  | None => s
  end.

(** The platform ends track [t] and fires [ended] on it; the handler is
    the one assigned last. *)
Definition fire_ended (t : nat) (flush : Blob) (s : Sys) : Sys :=
  let s := with_world (fun w => set_ended (t :: ended w) w) s in
  match find (fun h => Nat.eqb (fst h) t) (onended (world s)) with
  | Some (_, captured) => videoTrack_onended captured flush s
  | None => s
  end.

(** The interface calls the callbacks of the current render. *)
Definition handle (e : Event) (s : Sys) : Sys :=
  match e with
  | EvStart p => startRecording (isRecording (st s)) p s
  | EvStop flush => stopRecording (isRecording (st s)) flush s
  | EvDownload iso => downloadRecording (recordedBlob (st s)) iso s
  | EvReset => resetRecording s
  | EvData r data => fire_dataavailable r data s
  | EvEnded t flush => fire_ended t flush s
  end.

Definition step (e : Event) (s : Sys) : Sys := useEffect_recordedBlob (handle e s).

Definition run (es : list Event) (s : Sys) : Sys := fold_left (fun acc e => step e acc) es s.

(** The component as mounted. *)
Definition init : Sys :=
  mkSys (mkState false None "" "Ready to record" None) None [] false None
        (mkWorld 0 [] [] [] [] [] [] 0 [] []).

(** ** What the interface shows (lines 200-257) *)

Definition start_offered (t : State) : bool :=
  negb (isRecording t) && negb (bool_decide (is_Some (recordedBlob t))).

(** The session state of the specification, read off the component's
    state: the recording flag first, then a non-empty error text, then
    the presence of an artifact, then the status text of the two phases
    of a start in flight. *)
Inductive SessionState :=
| Idle | CheckingCompatibility | RequestingPermissions | Recording | Completed | Errored.

Definition session_state (t : State) : SessionState :=
  if isRecording t then Recording
  else if negb (String.eqb (error t) "") then Errored
  else if bool_decide (is_Some (recordedBlob t)) then Completed
  else if String.eqb (status t) "Checking compatibility..." then CheckingCompatibility
  else if String.eqb (status t) "Requesting permissions..." then RequestingPermissions
  else Idle.

(** A platform on which every step of [startRecording] succeeds, with
    [n] audio tracks on the display capture. *)
Definition granting (n : nat) : Platform :=
  mkPlatform true true true (inr n) None None None None.

Definition is_recording (rc : MediaRecorder) : bool :=
  match rec_state rc with
  | recording => true
  | inactive => false
  end.

(** The number of recorders that are recording. *)
Definition count_recording (w : World) : nat :=
  length (List.filter is_recording (recorders w)).

(** * Notions used in the statements *)

(** The streams a successful [startRecording] works with, when the first
    unused track id is [t0] and the display capture has [n] audio tracks. *)
Definition screen_stream (t0 n : nat) : MediaStream :=
  mkTrack t0 Video :: map (fun i => mkTrack i Audio) (seq (S t0) n).
Definition mic_stream (t0 n : nat) : MediaStream := [mkTrack (S t0 + n) Audio].
Definition mixed_track (t0 n : nat) : Track := mkTrack (S (S t0 + n)) Audio.
Definition display_sources (t0 n : nat) : list MediaStream :=
  match n with
  | 0 => []
  | S _ => [[mkTrack (S t0) Audio]]
  end.

(** Unfolding the callbacks down to record updates. *)
Ltac js_unfold :=
  cbv beta iota zeta delta
    [startRecording tryCatch startRecording_try startRecording_catch
     stopRecording videoTrack_onended downloadRecording resetRecording
     useEffect_recordedBlob MediaRecorder_stop MediaRecorder_start MediaRecorder_new
     alter_recorder destination_of connect_source createMediaStreamDestination
     AudioContext_new getUserMedia getDisplayMedia may_throw onstop ondataavailable
     fire_dataavailable fire_ended createObjectURL revokeObjectURL AudioContext_close
     handle step
     bind lift ret throw granting
     setIsRecording setError setStatus setPreviewUrl setRecordedBlob
     set_mediaRecorderRef set_recordedChunks set_effect with_st with_world
     set_next_track set_stops set_ended set_contexts set_closes set_recorders
     set_onended set_urls set_downloads
     set_rec_state set_rec_ondataavailable set_rec_onstop
     getAudioTracks getVideoTracks getTracks
     st mediaRecorderRef recordedChunks depsChanged effectUrl world
     isRecording recordedBlob error status previewUrl
     next_track stops ended contexts closes recorders onended next_url urls downloads
     has_mediaDevices has_getDisplayMedia isSecureContext displayMedia userMedia
     audioContextCtor mediaRecorderCtor mediaRecorderStart
     rec_stream rec_mimeType rec_state rec_timeslice rec_ondataavailable rec_onstop
     env_screen env_mic env_ctx destination_stream connected
     negb orb andb fst snd] in *.

(** Every way a platform can answer: the capability checks, then each
    call in the order the [try] block makes them. *)
Ltac platform_cases p :=
  destruct p as [pm pg pc pd pu pa pr pq];
  destruct pm, pg, pc;
  [ destruct pd as [?|pn];
    [ | destruct pn;
        (destruct pu; [| destruct pa; [| destruct pr; [| destruct pq]]]) ]
  | .. ].

(** The first failure the [try] block meets on a platform, following the
    order of its statements; [None] when every step succeeds. *)
Definition first_failure (p : Platform) : option Thrown :=
  if negb (has_mediaDevices p) || negb (has_getDisplayMedia p)
  then Some (ErrorObj "Screen recording is not supported in this browser. Please use Chrome, Edge, or Firefox.")
  else if negb (isSecureContext p)
  then Some (ErrorObj "Screen recording requires HTTPS or localhost. Please access this page over HTTPS.")
  else match displayMedia p with
       | inl e => Some e
       | inr _ =>
           match userMedia p, audioContextCtor p, mediaRecorderCtor p, mediaRecorderStart p with
           | Some e, _, _, _ => Some e
           | None, Some e, _, _ => Some e
           | None, None, Some e, _ => Some e
           | None, None, None, o => o
           end
       end.

Definition refusing_microphone : Platform :=
  mkPlatform true true true (inr 1) (Some (ErrorObj "Permission denied")) None None None.

Definition nonzero (d : Blob) : bool := Nat.ltb 0 (blob_size d).

(** The component is recording on recorder [r], whose [onstop] handler
    captured [env]. *)
Definition recording_on (r : nat) (env : StopEnv) (s : Sys) : Prop :=
  isRecording (st s) = true /\
  mediaRecorderRef s = Some r /\
  exists rc, recorders (world s) !! r = Some rc /\
             rec_state rc = recording /\
             rec_ondataavailable rc = true /\
             rec_onstop rc = Some env.

Definition session_env (s : Sys) (n : nat) : StopEnv :=
  mkStopEnv (screen_stream (next_track (world s)) n) (mic_stream (next_track (world s)) n)
            (length (contexts (world s))).

(** A recorder has been released when it was started and is inactive
    again: its [stop] event has fired. *)
Definition released (rc : MediaRecorder) : bool :=
  match rec_state rc, rec_timeslice rc with
  | inactive, Some _ => true
  | _, _ => false
  end.

Definition once_if (b : bool) : nat := if b then 1 else 0.

(** The ids of the device tracks a session owns. *)
Definition env_tracks (env : StopEnv) : list nat :=
  map track_id (getTracks (env_screen env) ++ getTracks (env_mic env)).

(** How often [x] occurs in a log. *)
Definition times (x : nat) (l : list nat) : nat := count_occ Nat.eq_dec l x.

(** Start is invoked only in states where [ok] holds. *)
Fixpoint starts_when (ok : State -> bool) (es : list Event) (s : Sys) : bool :=
  match es with
  | [] => true
  | e :: es' =>
      match e with
      | EvStart _ => ok (st s)
      | _ => true
      end && starts_when ok es' (step e s)
  end.

(** The release invariant, over the next track id, the [stop()] log, the
    number of audio contexts, the [close()] log and the recorders: a
    recorder that is recording has its handlers and was started; the
    tracks and the audio context a session owns exist, are its own, and
    were released once if the session was started and has stopped, never
    otherwise. It holds in every run. *)
Record Rel_on (nt : nat) (sp : list nat) (nc : nat) (cl : list nat)
    (rs : list MediaRecorder) : Prop := {
  rel_started : forall j rc,
    rs !! j = Some rc -> rec_state rc = recording ->
    is_Some (rec_onstop rc) /\ is_Some (rec_timeslice rc);
  rel_env : forall j rc env,
    rs !! j = Some rc -> rec_onstop rc = Some env ->
    (forall t, In t (env_tracks env) -> t < nt) /\
    env_ctx env < nc /\
    List.NoDup (env_tracks env) /\
    (forall t, In t (env_tracks env) -> times t sp = once_if (released rc)) /\
    times (env_ctx env) cl = once_if (released rc);
  rel_disjoint : forall i j rci rcj envi envj,
    i <> j -> rs !! i = Some rci -> rs !! j = Some rcj ->
    rec_onstop rci = Some envi -> rec_onstop rcj = Some envj ->
    (forall t, In t (env_tracks envi) -> ~ In t (env_tracks envj)) /\
    env_ctx envi <> env_ctx envj;
  rel_stops : forall t, In t sp -> t < nt;
  rel_closes : forall c, In c cl -> c < nc
}.

Definition Rel (s : Sys) : Prop :=
  Rel_on (next_track (world s)) (stops (world s)) (length (contexts (world s)))
         (closes (world s)) (recorders (world s)).

(** The invariant of the runs in which start is invoked only while not
    recording, over the recording flag, the recorder reference, the
    recorders and the [ended] handlers: a recorder that is recording is the
    referenced one and the flag is on; every [ended] handler captured a
    flag that was off. *)
Record One_on (ir : bool) (ref : option nat) (rs : list MediaRecorder)
    (oe : list (nat * bool)) : Prop := {
  one_active : forall j rc,
    rs !! j = Some rc -> rec_state rc = recording -> ir = true /\ ref = Some j;
  one_handlers : forall h, In h oe -> snd h = false
}.

Definition One (s : Sys) : Prop :=
  One_on (isRecording (st s)) (mediaRecorderRef s) (recorders (world s))
         (onended (world s)).

(** ** The rendered interface (lines 159-263) *)






(** The text the [catch] block shows for a thrown value. *)
Definition failure_text (e : Thrown) : string :=
  "Failed to start recording: " +:+
  match e with
  | ErrorObj message => message
  | NonError => "Unknown error"
  end.

(** The object URLs of a settled state: the preview URL is there exactly
    when an artifact is, it is the URL the effect holds, it resolves to
    the artifact, and it is the only object URL not revoked. *)
Definition Urls (s : Sys) : Prop :=
  depsChanged s = false /\
  match recordedBlob (st s) with
  | Some blob =>
      exists u, effectUrl s = Some u /\ previewUrl (st s) = Some u /\
                urls (world s) = [(u, blob)] /\ u < next_url (world s)
  | None => effectUrl s = None /\ previewUrl (st s) = None /\ urls (world s) = []
  end.


(** How every recorder the component creates is set up (lines 73-111). *)
Definition Configured (rc : MediaRecorder) : Prop :=
  rec_mimeType rc = "video/webm;codecs=vp9,opus" /\
  rec_ondataavailable rc = true /\
  (rec_timeslice rc = None \/ rec_timeslice rc = Some 100) /\
  exists video mixed env,
    rec_stream rc = [video; mixed] /\
    track_kind video = Video /\ track_kind mixed = Audio /\
    rec_onstop rc = Some env /\
    getVideoTracks (env_screen env) = [video] /\
    ~ In (track_id mixed) (env_tracks env).

(** Track [t] exists, was never stopped, and belongs to no session. *)
Definition Orphan (t : nat) (s : Sys) : Prop :=
  t < next_track (world s) /\
  ~ In t (stops (world s)) /\
  forall j rc env,
    recorders (world s) !! j = Some rc -> rec_onstop rc = Some env ->
    ~ In t (env_tracks env).


(** Every recorder of the system is set up that way. *)
Definition All_configured (s : Sys) : Prop :=
  forall j rc, recorders (world s) !! j = Some rc -> Configured rc.

(** * Properties *)

(** ** A session, step by step *)

(** The mounted component is idle; a start on a granting platform leaves
    it recording; a chunk and a stop leave it completed, with the artifact,
    a preview URL, the three device tracks stopped and the audio context
    closed; a reset leaves it idle with the preview URL revoked. *)
Example session_walkthrough :
  let chunk := mkBlob ["001"%byte; "002"%byte] "video/webm" in
  let s1 := run [EvStart (granting 1)] init in
  let s2 := run [EvData 0 chunk; EvStop (mkBlob [] "video/webm")] s1 in
  let s3 := step EvReset s2 in
  session_state (st init) = Idle /\
  (session_state (st s1) = Recording /\ status (st s1) = "Recording in progress...") /\
  (session_state (st s2) = Completed /\
   recordedBlob (st s2) = Some chunk /\
   previewUrl (st s2) = Some 0 /\
   stops (world s2) = [2; 1; 0] /\
   closes (world s2) = [0]) /\
  (session_state (st s3) = Idle /\ urls (world s3) = []).
Proof. vm_compute. split_and!; reflexivity. Qed.

(** ** Lists and tables *)

Lemma alter_last {A} (f : A -> A) (l : list A) (x : A) :
  alter f (length l) (l ++ [x]) = l ++ [f x].
Proof. induction l as [|y l IH]; simpl; [reflexivity | f_equal; exact IH]. Qed.

Lemma lookup_last {A} (l : list A) (x : A) : (l ++ [x]) !! length l = Some x.
Proof. induction l as [|y l IH]; simpl; [reflexivity | exact IH]. Qed.

Lemma audio_tracks_video (l : list nat) :
  List.filter is_video (map (fun i => mkTrack i Audio) l) = [].
Proof. induction l as [|i l IH]; simpl; [reflexivity | exact IH]. Qed.

(** A successful [startRecording], executed symbolically. *)
Lemma start_granted (b : bool) (n : nat) (s : Sys) :
  startRecording b (granting n) s =
  let w := world s in
  let t0 := next_track w in
  mkSys (mkState true (recordedBlob (st s)) "" "Recording in progress..." (previewUrl (st s)))
        (Some (length (recorders w))) [] (depsChanged s) (effectUrl s)
        (mkWorld (S (S (S t0 + n))) (stops w) (ended w)
           (contexts w ++ [mkAudioContext [mixed_track t0 n]
                             (display_sources t0 n ++ [mic_stream t0 n])])
           (closes w)
           (recorders w ++
              [mkMediaRecorder [mkTrack t0 Video; mixed_track t0 n]
                 "video/webm;codecs=vp9,opus" recording (Some 100) true
                 (Some (mkStopEnv (screen_stream t0 n) (mic_stream t0 n)
                                  (length (contexts w))))])
           ((t0, b) :: onended w) (next_url w) (urls w) (downloads w)).
Proof.
  destruct s as [t r ch dc eu w]. destruct n as [|n]; js_unfold; cbn;
    rewrite ?audio_tracks_video; cbn;
    repeat (rewrite ?alter_last, ?lookup_last; cbn).
  - reflexivity.
  - reflexivity.
Qed.

(** What an abrupt completion of the [try] block leaves untouched. *)
Lemma try_abrupt_frame (b : bool) (p : Platform) (s s1 : Sys) (e : Thrown) :
  startRecording_try b p s = (s1, Abrupt e) ->
  isRecording (st s1) = isRecording (st s) /\
  recordedBlob (st s1) = recordedBlob (st s) /\
  previewUrl (st s1) = previewUrl (st s) /\
  depsChanged s1 = depsChanged s /\
  effectUrl s1 = effectUrl s /\
  stops (world s1) = stops (world s) /\
  ended (world s1) = ended (world s) /\
  closes (world s1) = closes (world s) /\
  next_url (world s1) = next_url (world s) /\
  urls (world s1) = urls (world s) /\
  downloads (world s1) = downloads (world s).
Proof.
  intros H. destruct s as [t r ch dc eu w].
  platform_cases p; cbv in H; try discriminate H;
    injection H as <- _; cbn; repeat split; reflexivity.
Qed.

(** ** Failures of [startRecording] *)

(** The [try] block completes abruptly exactly when some step fails, with
    what that step threw. *)
Lemma try_completion (b : bool) (p : Platform) (s : Sys) :
  snd (startRecording_try b p s) =
  match first_failure p with
  | Some e => Abrupt e
  | None => Normal tt
  end.
Proof.
  destruct s as [t r ch dc eu w].
  platform_cases p; cbv; reflexivity.
Qed.



(** C9. A failed [startRecording] leaves the stored artifact and its
    preview handle as they were: the recording flag, the artifact and the
    preview URL are unchanged, the effect that derives the preview has
    nothing to rerun and no object URL is created or revoked; the [catch]
    block itself changes nothing but the error text and the status text. *)
Theorem start_failure_keeps_artifact (b : bool) (p : Platform) (s s1 : Sys) (e : Thrown) :
  startRecording_try b p s = (s1, Abrupt e) ->
  let s' := startRecording b p s in
  (recordedBlob (st s') = recordedBlob (st s) /\
   previewUrl (st s') = previewUrl (st s) /\
   isRecording (st s') = isRecording (st s)) /\
  (depsChanged s' = depsChanged s /\
   effectUrl s' = effectUrl s /\
   urls (world s') = urls (world s)) /\
  (isRecording (st s') = isRecording (st s1) /\
   recordedBlob (st s') = recordedBlob (st s1) /\
   previewUrl (st s') = previewUrl (st s1) /\
   mediaRecorderRef s' = mediaRecorderRef s1 /\
   recordedChunks s' = recordedChunks s1 /\
   world s' = world s1).
Proof.
  intros Htry.
  destruct (try_abrupt_frame b p s s1 e Htry)
    as (H1 & H2 & H3 & H4 & H5 & _ & _ & _ & _ & H6 & _).
  unfold startRecording, tryCatch. rewrite Htry. cbn.
  repeat split; assumption.
Qed.

Lemma start_failure_keeps_artifact_witness :
  let s := run [EvStart (granting 1); EvData 0 (mkBlob ["001"%byte] "video/webm");
                EvStop (mkBlob [] "video/webm")] init in
  let s' := startRecording false
              (mkPlatform true true true (inr 0) (Some (ErrorObj "Permission denied"))
                          None None None) s in
  recordedBlob (st s') = Some (mkBlob ["001"%byte] "video/webm") /\
  previewUrl (st s') = Some 0.
Proof.
  cbv zeta.
  edestruct (start_failure_keeps_artifact false
    (mkPlatform true true true (inr 0) (Some (ErrorObj "Permission denied")) None None None)
    (run [EvStart (granting 1); EvData 0 (mkBlob ["001"%byte] "video/webm");
          EvStop (mkBlob [] "video/webm")] init)) as ((H1 & H2 & _) & _).
  - reflexivity.
  - split; [exact H1 | exact H2].
Defined.

(** ** The effect and the download *)

(** The effect of lines 151-157 touches the preview URL, its own
    bookkeeping and the table of object URLs, nothing else. *)
Lemma effect_frame (s : Sys) :
  let s' := useEffect_recordedBlob s in
  (isRecording (st s') = isRecording (st s) /\
   recordedBlob (st s') = recordedBlob (st s) /\
   error (st s') = error (st s) /\
   status (st s') = status (st s)) /\
  mediaRecorderRef s' = mediaRecorderRef s /\
  recordedChunks s' = recordedChunks s /\
  (next_track (world s') = next_track (world s) /\
   stops (world s') = stops (world s) /\
   ended (world s') = ended (world s) /\
   contexts (world s') = contexts (world s) /\
   closes (world s') = closes (world s) /\
   recorders (world s') = recorders (world s) /\
   onended (world s') = onended (world s) /\
   downloads (world s') = downloads (world s)).
Proof.
  destruct s as [[ir rb er sta pv] r ch dc eu w].
  unfold useEffect_recordedBlob. cbn.
  destruct dc, eu, rb; cbn; repeat split; reflexivity.
Qed.

(** When the dependency did not change the effect does not run. *)
Lemma effect_idle (s : Sys) : depsChanged s = false -> useEffect_recordedBlob s = s.
Proof. intros H. unfold useEffect_recordedBlob. rewrite H. reflexivity. Qed.

(** [downloadRecording] touches the table of object URLs and the list of
    downloads, nothing else, whatever artifact its render holds. *)
Lemma download_view (r : option Blob) (iso : string) (s : Sys) :
  let s' := downloadRecording r iso s in
  st s' = st s /\
  recordedChunks s' = recordedChunks s /\
  mediaRecorderRef s' = mediaRecorderRef s /\
  depsChanged s' = depsChanged s /\
  effectUrl s' = effectUrl s /\
  (next_track (world s') = next_track (world s) /\
   stops (world s') = stops (world s) /\
   ended (world s') = ended (world s) /\
   contexts (world s') = contexts (world s) /\
   closes (world s') = closes (world s) /\
   recorders (world s') = recorders (world s) /\
   onended (world s') = onended (world s)).
Proof.
  destruct s as [t rf ch dc eu w]. destruct r as [blob|]; cbn; split_and!; reflexivity.
Qed.

(** C10. The download control, in any state: when the state holds no
    artifact the call changes nothing at all; when it holds one, the call
    triggers one download of that artifact under the timestamped name. In
    both cases the React state (recording flag, artifact, status text,
    error text, preview URL), the chunk buffer, the recorder reference,
    the recorders and the release logs are the same before and after. *)
Theorem download_frame (iso : string) (s : Sys) :
  let s' := handle (EvDownload iso) s in
  (st s' = st s /\
   recordedChunks s' = recordedChunks s /\
   mediaRecorderRef s' = mediaRecorderRef s /\
   depsChanged s' = depsChanged s) /\
  (recorders (world s') = recorders (world s) /\
   stops (world s') = stops (world s) /\
   closes (world s') = closes (world s)) /\
  match recordedBlob (st s) with
  | None => s' = s
  | Some blob =>
      downloads (world s') =
        ("screen-recording-" +:+ String.substring 0 19 iso +:+ ".webm", Some blob)
          :: downloads (world s)
  end.
Proof.
  cbv zeta. cbn [handle].
  destruct (download_view (recordedBlob (st s)) iso s)
    as (H1 & H2 & H3 & H4 & _ & (_ & H5 & _ & _ & H6 & H7 & _)).
  split_and!; try assumption.
  destruct s as [t rf ch dc eu w]. cbn [st].
  destruct (recordedBlob t) as [blob|]; [|reflexivity].
  unfold downloadRecording, createObjectURL, revokeObjectURL, url_blob. cbn.
  rewrite Nat.eqb_refl. reflexivity.
Qed.

(** ** Display granted, microphone refused *)

(** Whenever the display capture is granted and the microphone capture
    fails, [startRecording] calls [stop()] on no track. *)
Lemma microphone_failure_stops_nothing (b : bool) (s : Sys) (n : nat) (e : Thrown)
    (a r q : option Thrown) :
  let s' := startRecording b (mkPlatform true true true (inr n) (Some e) a r q) s in
  stops (world s') = stops (world s) /\
  ended (world s') = ended (world s) /\
  next_track (world s') = S (next_track (world s) + n).
Proof.
  destruct s as [t rf ch dc eu w]. js_unfold. cbn. repeat split; reflexivity.
Qed.

(** C1, evaluated where it fails: from the mounted component, with the
    display capture granted (one video and one audio track, ids 0 and 1)
    and the microphone refused, the session settles in the error state
    while both tracks of the display capture are still live and no
    [stop()] was ever called. *)
Theorem microphone_failure_leaks_display :
  let s' := step (EvStart refusing_microphone) init in
  session_state (st s') = Errored /\
  error (st s') = "Failed to start recording: Permission denied" /\
  stops (world s') = [] /\
  forallb (track_live (world s')) (screen_stream 0 1) = true.
Proof. cbv zeta. repeat split; reflexivity. Qed.

(** ** The display's video track ends while recording *)

(** After a successful [startRecording] called while not recording, the
    handler on the display's video track holds [isRecording = false]: when
    the platform ends that track, nothing happens beyond the track being
    ended. *)
Lemma ended_handler_is_dead (n : nat) (flush : Blob) (s : Sys) :
  isRecording (st s) = false ->
  let s1 := handle (EvStart (granting n)) s in
  handle (EvEnded (next_track (world s)) flush) s1 =
  with_world (fun w => set_ended (next_track (world s) :: ended w) w) s1.
Proof.
  intros Hidle. cbn [handle]. rewrite Hidle, start_granted.
  unfold fire_ended. cbn. rewrite Nat.eqb_refl. reflexivity.
Qed.

(** C3, evaluated where it fails: a recording started from the mounted
    component has collected one chunk when the platform ends the display's
    video track (id 0). The session is still recording afterwards: no
    artifact, the recorder still recording, no track stopped, the audio
    context not closed. *)
Theorem external_end_keeps_recording :
  let chunk := mkBlob ["001"%byte; "002"%byte] "video/webm" in
  let s := run [EvStart (granting 1); EvData 0 chunk] init in
  let s' := step (EvEnded 0 (mkBlob [] "video/webm")) s in
  session_state (st s) = Recording /\
  recordedChunks s = [chunk] /\
  session_state (st s') = Recording /\
  recordedBlob (st s') = None /\
  count_recording (world s') = 1 /\
  stops (world s') = [] /\
  closes (world s') = [].
Proof. cbv zeta. repeat split; reflexivity. Qed.

(** ** The audio mixer *)

(** C8. In a successful [startRecording], with [screen] and [mic] the two
    captures: the microphone stream is always a source connected into the
    destination; the display's first audio track, wrapped in a stream of
    its own, is connected before it exactly when the display capture has an
    audio track; the destination carries one audio track, and the stream
    given to the recorder is the display's video track followed by that
    one mixed track, whatever the number of display audio tracks. *)
Theorem mixer_connections (b : bool) (n : nat) (s : Sys) :
  let s' := startRecording b (granting n) s in
  let t0 := next_track (world s) in
  let screen := screen_stream t0 n in
  let mic := mic_stream t0 n in
  let mixed := mixed_track t0 n in
  exists ctx rc,
    contexts (world s') !! length (contexts (world s)) = Some ctx /\
    recorders (world s') !! length (recorders (world s)) = Some rc /\
    rec_onstop rc = Some (mkStopEnv screen mic (length (contexts (world s)))) /\
    In mic (connected ctx) /\
    connected ctx = match getAudioTracks screen with
                    | [] => [mic]
                    | screenAudioTrack :: _ => [[screenAudioTrack]; mic]
                    end /\
    destination_stream ctx = [mixed] /\
    rec_stream rc = getVideoTracks screen ++ [mixed] /\
    getAudioTracks (rec_stream rc) = [mixed].
Proof.
  cbv zeta. rewrite start_granted. cbn.
  rewrite !lookup_last.
  eexists _, _. split; [reflexivity |]. split; [reflexivity |]. cbn.
  unfold getVideoTracks, getAudioTracks, screen_stream. cbn.
  rewrite audio_tracks_video.
  destruct n as [|n]; cbn; repeat split; auto.
Qed.

(** ** One recording session *)

Lemma forEach_track_stop (l : list Track) (s : Sys) :
  forEach l track_stop s =
  with_world (fun w => set_stops (rev (map track_id l) ++ stops w) w) s.
Proof.
  revert s. induction l as [|t l IH]; intros [tt r ch dc eu [nt sp en cx cl rs oe nu us ds]].
  - reflexivity.
  - unfold forEach in *. cbn [fold_left]. rewrite IH.
    unfold track_stop, with_world, set_stops. cbn.
    rewrite <- app_assoc. reflexivity.
Qed.

Lemma start_recording_on (n : nat) (s : Sys) :
  let s' := step (EvStart (granting n)) s in
  recording_on (length (recorders (world s))) (session_env s n) s' /\
  recordedChunks s' = [] /\
  error (st s') = "" /\
  recordedBlob (st s') = recordedBlob (st s) /\
  stops (world s') = stops (world s) /\
  closes (world s') = closes (world s).
Proof.
  cbv zeta. unfold step, recording_on.
  destruct (effect_frame (handle (EvStart (granting n)) s))
    as ((-> & -> & -> & _) & -> & -> & (_ & -> & _ & _ & -> & -> & _)).
  cbn [handle]. rewrite start_granted. cbn.
  rewrite lookup_last. split_and!; try reflexivity.
  eexists. split_and!; reflexivity.
Qed.

Lemma data_step (r : nat) (env : StopEnv) (d : Blob) (s : Sys) :
  recording_on r env s ->
  let s' := step (EvData r d) s in
  recording_on r env s' /\
  recordedChunks s' = recordedChunks s ++ (if nonzero d then [d] else []) /\
  error (st s') = error (st s) /\
  recordedBlob (st s') = recordedBlob (st s) /\
  stops (world s') = stops (world s) /\
  closes (world s') = closes (world s).
Proof.
  intros (Hrec & Href & rc & Hrc & Hst & Hdata & Hstop).
  cbv zeta. unfold step, recording_on.
  destruct (effect_frame (handle (EvData r d) s))
    as ((-> & -> & -> & _) & -> & -> & (_ & -> & _ & _ & -> & -> & _)).
  cbn [handle]. unfold fire_dataavailable. rewrite Hrc, Hst, Hdata.
  unfold ondataavailable, nonzero.
  destruct (Nat.ltb 0 (blob_size d)); cbn.
  - split_and!; try assumption; try reflexivity.
    exists rc; split_and!; assumption.
  - rewrite app_nil_r. split_and!; try assumption; try reflexivity.
    exists rc; split_and!; assumption.
Qed.

Lemma data_run (r : nat) (env : StopEnv) (ds : list Blob) (s : Sys) :
  recording_on r env s ->
  let s' := run (map (EvData r) ds) s in
  recording_on r env s' /\
  recordedChunks s' = recordedChunks s ++ List.filter nonzero ds /\
  error (st s') = error (st s) /\
  recordedBlob (st s') = recordedBlob (st s) /\
  stops (world s') = stops (world s) /\
  closes (world s') = closes (world s).
Proof.
  revert s. induction ds as [|d ds IH]; intros s Hon; cbv zeta.
  - cbn. rewrite app_nil_r. split_and!; auto.
  - cbn [map run fold_left].
    destruct (data_step r env d s Hon) as (Hon' & Hch & He & Hb & Hs & Hc).
    destruct (IH _ Hon') as (Hon'' & Hch' & He' & Hb' & Hs' & Hc').
    unfold run in *. split_and!; try congruence.
    rewrite Hch', Hch, <- app_assoc. cbn [List.filter].
    destruct (nonzero d); reflexivity.
Qed.

Lemma stop_step (r : nat) (env : StopEnv) (flush : Blob) (s : Sys) :
  recording_on r env s ->
  let s' := step (EvStop flush) s in
  let chunks := recordedChunks s ++ (if nonzero flush then [flush] else []) in
  recordedChunks s' = chunks /\
  recordedBlob (st s') = Some (Blob_new chunks "video/webm") /\
  isRecording (st s') = false /\
  status (st s') = "Recording completed" /\
  error (st s') = error (st s) /\
  stops (world s') =
    rev (map track_id (env_mic env)) ++ rev (map track_id (env_screen env)) ++ stops (world s) /\
  closes (world s') = env_ctx env :: closes (world s).
Proof.
  intros (Hrec & Href & rc & Hrc & Hst & Hdata & Hstop).
  cbv zeta. unfold step.
  destruct (effect_frame (handle (EvStop flush) s))
    as ((-> & -> & -> & ->) & _ & -> & (_ & -> & _ & _ & -> & _)).
  cbn [handle]. rewrite Hrec. unfold stopRecording. rewrite Href.
  unfold MediaRecorder_stop. rewrite Hrc, Hst, Hdata, Hstop.
  unfold onstop, getTracks. rewrite !forEach_track_stop.
  unfold ondataavailable, nonzero.
  destruct (Nat.ltb 0 (blob_size flush)); cbn; rewrite ?app_nil_r; split_and!; reflexivity.
Qed.

Lemma concat_sizes (l : list Blob) :
  length (concat (map blob_bytes l)) = list_sum (map blob_size l).
Proof.
  induction l as [|d l IH]; [reflexivity |].
  unfold list_sum in *. cbn [map concat fold_right]. rewrite length_app, IH. reflexivity.
Qed.

Lemma nonzero_sizes (l : list Blob) :
  list_sum (map blob_size (List.filter nonzero l)) = list_sum (map blob_size l).
Proof.
  induction l as [|d l IH]; [reflexivity |].
  cbn [List.filter]. unfold nonzero at 1.
  destruct (Nat.ltb_spec 0 (blob_size d)); unfold list_sum in *; cbn [map fold_right] in *; lia.
Qed.

(** One whole session from any state: start on a granting platform, the
    [dataavailable] events of its recorder, stop. *)
Lemma session_artifact (n : nat) (datas : list Blob) (flush : Blob) (s : Sys) :
  let r := length (recorders (world s)) in
  let s1 := run (EvStart (granting n) :: map (EvData r) datas) s in
  let s2 := step (EvStop flush) s1 in
  let chunks := List.filter nonzero (datas ++ [flush]) in
  recording_on r (session_env s n) s1 /\
  recordedChunks s1 = List.filter nonzero datas /\
  recordedChunks s2 = chunks /\
  recordedBlob (st s2) = Some (Blob_new chunks "video/webm") /\
  isRecording (st s2) = false /\
  error (st s2) = "".
Proof.
  cbv zeta. cbn [run fold_left].
  destruct (start_recording_on n s) as (Hon & Hch & Herr & _).
  destruct (data_run _ _ datas _ Hon) as (Hon' & Hch' & Herr' & _).
  unfold run in Hon', Hch', Herr'.
  destruct (stop_step _ _ flush _ Hon') as (Hc2 & Hb2 & Hr2 & _ & He2 & _).
  rewrite Hch in Hch'. cbn [app] in Hch'.
  assert (Hall : List.filter nonzero (datas ++ [flush]) =
                 List.filter nonzero datas ++ (if nonzero flush then [flush] else [])).
  { rewrite List.filter_app. cbn. destruct (nonzero flush); reflexivity. }
  rewrite Hall, <- Hch'. split_and!; try assumption; try reflexivity.
  congruence.
Qed.

(** C7. From any state, a session on a granting platform whose recorder
    emits the segments [datas] and then, on stop, the last segment
    [flush]: while recording the chunk buffer holds exactly the segments of
    non-zero size emitted so far, in emission order; the artifact made at
    stop is the concatenation, in that order, of the non-zero segments,
    tagged [video/webm]; its byte length is the sum of their lengths; and
    the session is then completed. *)
Theorem artifact_is_concatenation (n : nat) (datas : list Blob) (flush : Blob) (s : Sys) :
  let r := length (recorders (world s)) in
  let s1 := run (EvStart (granting n) :: map (EvData r) datas) s in
  let s2 := step (EvStop flush) s1 in
  let chunks := List.filter nonzero (datas ++ [flush]) in
  recordedChunks s1 = List.filter nonzero datas /\
  recordedChunks s2 = chunks /\
  recordedBlob (st s2) = Some (mkBlob (concat (map blob_bytes chunks)) "video/webm") /\
  length (concat (map blob_bytes chunks)) = list_sum (map blob_size chunks) /\
  list_sum (map blob_size chunks) = list_sum (map blob_size (datas ++ [flush])) /\
  session_state (st s2) = Completed.
Proof.
  cbv zeta.
  destruct (session_artifact n datas flush s) as (_ & H1 & H2 & H3 & H4 & H5).
  split_and!; try assumption.
  - apply concat_sizes.
  - apply nonzero_sizes.
  - unfold session_state. rewrite H4, H5, H3. reflexivity.
Qed.

(** ** Reset *)

Lemma find_revoked (u : nat) (l : list (nat * Blob)) :
  find (fun p => Nat.eqb (fst p) u) (List.filter (fun p => negb (Nat.eqb (fst p) u)) l) = None.
Proof.
  induction l as [|[v b] l IH]; cbn; [reflexivity |].
  destruct (Nat.eqb v u) eqn:E; cbn; [exact IH | rewrite E; exact IH].
Qed.

(** The session that follows any state [s]: its start empties the chunk
    buffer, and its artifact is made of its own segments only. *)
Lemma next_session_artifact (n : nat) (datas : list Blob) (flush : Blob) (s : Sys) :
  let r := length (recorders (world s)) in
  let s1 := step (EvStart (granting n)) s in
  let s2 := run (map (EvData r) datas ++ [EvStop flush]) s1 in
  recordedChunks s1 = [] /\
  recordedBlob (st s2) =
    Some (Blob_new (List.filter nonzero (datas ++ [flush])) "video/webm").
Proof.
  cbv zeta.
  destruct (start_recording_on n s) as (Hon & Hch & _).
  split; [exact Hch |].
  destruct (data_run _ _ datas _ Hon) as (Hon' & Hch' & _).
  destruct (stop_step _ _ flush _ Hon') as (_ & Hb & _).
  unfold run in *. rewrite fold_left_app. cbn [fold_left].
  rewrite Hb, Hch', Hch. cbn [app].
  rewrite List.filter_app. cbn [List.filter].
  destruct (nonzero flush); reflexivity.
Qed.

(** C4 as the code has it. From the completed or the error state,
    [resetRecording] clears the artifact, the preview URL and the error
    text, puts the status text back to ["Ready to record"] and leaves the
    session idle; when there was an artifact the object URL made for its
    preview is revoked. The chunk buffer is not touched by the reset: it is
    the next [startRecording] that empties it, so that the artifact of the
    next session holds the segments of that session only. *)
Theorem reset_discards_artifact (s : Sys) :
  session_state (st s) = Completed \/ session_state (st s) = Errored ->
  let s' := step EvReset s in
  (recordedBlob (st s') = None /\
   previewUrl (st s') = None /\
   error (st s') = "" /\
   status (st s') = "Ready to record" /\
   session_state (st s') = Idle) /\
  (is_Some (recordedBlob (st s)) ->
   effectUrl s' = None /\
   forall u, effectUrl s = Some u -> url_blob u (world s') = None) /\
  recordedChunks s' = recordedChunks s /\
  (forall n datas flush,
     let r := length (recorders (world s')) in
     let s1 := step (EvStart (granting n)) s' in
     let s2 := run (map (EvData r) datas ++ [EvStop flush]) s1 in
     recordedChunks s1 = [] /\
     recordedBlob (st s2) =
       Some (Blob_new (List.filter nonzero (datas ++ [flush])) "video/webm")).
Proof.
  intros Hstate. cbv zeta.
  assert (Hoff : isRecording (st s) = false).
  { unfold session_state in Hstate. destruct (isRecording (st s)); [|reflexivity].
    destruct Hstate; discriminate. }
  destruct (effect_frame (handle EvReset s)) as ((Hf1 & Hf2 & Hf3 & Hf4) & _ & Hf5 & _).
  fold (step EvReset s) in Hf1, Hf2, Hf3, Hf4, Hf5.
  assert (Hblob : recordedBlob (st (step EvReset s)) = None) by (rewrite Hf2; reflexivity).
  assert (Herr : error (st (step EvReset s)) = "") by (rewrite Hf3; reflexivity).
  assert (Hsta : status (st (step EvReset s)) = "Ready to record") by (rewrite Hf4; reflexivity).
  assert (Hrec : isRecording (st (step EvReset s)) = false) by (rewrite Hf1; exact Hoff).
  split_and!; try assumption.
  - destruct s as [[ir rb er sta pv] r ch dc eu w].
    unfold step, useEffect_recordedBlob, handle, resetRecording.
    cbn [setRecordedBlob setPreviewUrl setStatus setError with_st st depsChanged effectUrl
         recordedBlob isRecording error status previewUrl mediaRecorderRef recordedChunks world].
    destruct (dc || _); [destruct eu |]; reflexivity.
  - unfold session_state. rewrite Hrec, Herr, Hblob, Hsta. vm_compute. reflexivity.
  - intros [blob Hsome]. clear - Hsome.
    destruct s as [[ir rb er sta pv] r ch dc eu w]. cbn in Hsome. subst rb.
    unfold step, useEffect_recordedBlob. cbn. rewrite orb_true_r.
    destruct eu as [u|]; cbn; split; try reflexivity.
    + intros u' [= <-]. unfold url_blob. cbn. rewrite find_revoked. reflexivity.
    + intros u' [=].
  - intros n datas flush. apply next_session_artifact.
Qed.

Lemma reset_discards_artifact_witness :
  let chunk := mkBlob ["001"%byte] "video/webm" in
  let s := run [EvStart (granting 1); EvData 0 chunk; EvStop (mkBlob [] "video/webm")] init in
  session_state (st (step EvReset s)) = Idle.
Proof.
  cbv zeta.
  apply (reset_discards_artifact
           (run [EvStart (granting 1); EvData 0 (mkBlob ["001"%byte] "video/webm");
                 EvStop (mkBlob [] "video/webm")] init)).
  left. vm_compute. reflexivity.
Defined.

(** C4 as stated fails: after a completed session with one chunk, the
    reset leaves that chunk in the chunk buffer. *)
Lemma reset_keeps_chunk_buffer :
  let chunk := mkBlob ["001"%byte] "video/webm" in
  let s := run [EvStart (granting 1); EvData 0 chunk; EvStop (mkBlob [] "video/webm")] init in
  session_state (st s) = Completed /\
  recordedChunks (step EvReset s) = [chunk] /\
  recordedChunks (step EvReset s) <> [].
Proof. vm_compute. split_and!; [reflexivity | reflexivity | discriminate]. Qed.

(** ** All runs: one release per session, one session at a time *)

(** What a call of [startRecording] does to the recorders, the logs and
    the recording flag, on any platform: either no recorder is created
    (a failure up to the constructor), or one is, started or not. *)
Lemma start_view (b : bool) (p : Platform) (s : Sys) :
  let s' := startRecording b p s in
  let w := world s in
  let w' := world s' in
  stops w' = stops w /\ closes w' = closes w /\
  ((isRecording (st s') = isRecording (st s) /\
    mediaRecorderRef s' = mediaRecorderRef s /\
    recorders w' = recorders w /\
    onended w' = onended w /\
    next_track w <= next_track w' /\
    length (contexts w) <= length (contexts w'))
   \/
   (exists (n : nat) (started : bool),
      isRecording (st s') = (if started then true else isRecording (st s)) /\
      mediaRecorderRef s' = Some (length (recorders w)) /\
      recorders w' =
        recorders w ++
          [mkMediaRecorder [mkTrack (next_track w) Video; mixed_track (next_track w) n]
             "video/webm;codecs=vp9,opus"
             (if started then recording else inactive)
             (if started then Some 100 else None) true
             (Some (session_env s n))] /\
      onended w' = (next_track w, b) :: onended w /\
      next_track w' = S (S (S (next_track w) + n)) /\
      length (contexts w') = S (length (contexts w)))).
Proof.
  destruct s as [[ir rb er sta pv] rf ch dc eu [nt sp en cx cl rs oe nu us ds]].
  unfold session_env.
  platform_cases p; js_unfold; cbn;
    rewrite ?audio_tracks_video; cbn;
    repeat (rewrite ?alter_last, ?lookup_last; cbn);
    (split; [reflexivity |]); (split; [reflexivity |]).
  all: try (left; split_and!; first [reflexivity | rewrite ?length_app; cbn; lia]).
  all: right.
  - exists 0, false. split_and!; first [reflexivity | rewrite ?length_app; cbn; lia].
  - exists 0, true. split_and!; first [reflexivity | rewrite ?length_app; cbn; lia].
  - eexists (S _), false. split_and!; first [reflexivity | rewrite ?length_app; cbn; lia].
  - eexists (S _), true. split_and!; first [reflexivity | rewrite ?length_app; cbn; lia].
Qed.

Lemma times_fresh (x bound : nat) (l : list nat) :
  (forall y, In y l -> y < bound) -> bound <= x -> times x l = 0.
Proof.
  intros Hl Hx. apply count_occ_not_In. intros Hin. apply Hl in Hin. lia.
Qed.

Lemma session_env_tracks (t0 n c : nat) :
  env_tracks (mkStopEnv (screen_stream t0 n) (mic_stream t0 n) c) = seq t0 (S (S n)).
Proof.
  unfold env_tracks, getTracks, screen_stream, mic_stream. cbn [env_screen env_mic].
  rewrite map_app. cbn [map track_id]. rewrite map_map. cbn [track_id].
  rewrite map_id.
  change (seq t0 (S (S n))) with (t0 :: seq (S t0) (S n)).
  rewrite seq_S. reflexivity.
Qed.

Lemma times_release (t : nat) (env : StopEnv) (sp : list nat) :
  times t (rev (map track_id (env_mic env)) ++ rev (map track_id (env_screen env)) ++ sp) =
  times t (env_tracks env) + times t sp.
Proof.
  unfold times, env_tracks, getTracks.
  rewrite map_app, !count_occ_app, !count_occ_rev. lia.
Qed.

Lemma released_inactive (rc : MediaRecorder) :
  is_Some (rec_timeslice rc) ->
  released (set_rec_state inactive (rec_timeslice rc) rc) = true.
Proof. intros [ts Hts]. unfold released. cbn. rewrite Hts. reflexivity. Qed.

Lemma released_recording (rc : MediaRecorder) :
  rec_state rc = recording -> released rc = false.
Proof. intros H. unfold released. rewrite H. reflexivity. Qed.

(** *** The release invariant *)

Lemma Rel_init : Rel init.
Proof.
  split; cbn; intros; try contradiction; discriminate.
Qed.

Lemma Rel_grow nt sp nc cl rs nt' nc' :
  Rel_on nt sp nc cl rs -> nt <= nt' -> nc <= nc' -> Rel_on nt' sp nc' cl rs.
Proof.
  intros [Ha He Hd Hs Hc] Hnt Hnc. split; try assumption.
  - intros j rc env Hj Henv.
    destruct (He j rc env Hj Henv) as (H1 & H2 & H3 & H4 & H5).
    split_and!; try assumption; [|lia].
    intros t Ht. apply H1 in Ht. lia.
  - intros t Ht. apply Hs in Ht. lia.
  - intros c Hin. apply Hc in Hin. lia.
Qed.

(** A call of [startRecording] that got as far as creating its recorder. *)
Lemma Rel_add nt sp nc cl rs n (started : bool) stream mime nt' nc' :
  Rel_on nt sp nc cl rs ->
  nt' = S (S (S nt + n)) -> nc < nc' ->
  Rel_on nt' sp nc' cl
    (rs ++ [mkMediaRecorder stream mime
              (if started then recording else inactive)
              (if started then Some 100 else None) true
              (Some (mkStopEnv (screen_stream nt n) (mic_stream nt n) nc))]).
Proof.
  intros [Ha He Hd Hs Hc] -> Hnc.
  set (env := mkStopEnv (screen_stream nt n) (mic_stream nt n) nc).
  assert (Hnew : forall t, In t (env_tracks env) <-> nt <= t < nt + S (S n)).
  { intros t. unfold env. rewrite session_env_tracks. apply in_seq. }
  split.
  - intros j rc Hj Hst. apply lookup_snoc_Some in Hj as [[_ Hj] | [-> <-]].
    + exact (Ha j rc Hj Hst).
    + cbn in *. destruct started; [|discriminate]. split; eauto.
  - intros j rc env' Hj Henv. apply lookup_snoc_Some in Hj as [[_ Hj] | [-> <-]].
    + destruct (He j rc env' Hj Henv) as (H1 & H2 & H3 & H4 & H5).
      split_and!; try assumption; [|lia].
      intros t Ht. apply H1 in Ht. lia.
    + cbn in Henv. injection Henv as <-. fold env.
      assert (Hrel : released (mkMediaRecorder stream mime
                        (if started then recording else inactive)
                        (if started then Some 100 else None) true (Some env)) = false).
      { destruct started; reflexivity. }
      rewrite Hrel. cbn [once_if]. split_and!.
      * intros t Ht. apply Hnew in Ht. lia.
      * exact Hnc.
      * unfold env. rewrite session_env_tracks. apply seq_NoDup.
      * intros t Ht. apply Hnew in Ht. apply (times_fresh t nt); [exact Hs | lia].
      * apply (times_fresh nc nc); [exact Hc | lia].
  - intros i j rci rcj envi envj Hij Hi Hj Hei Hej.
    apply lookup_snoc_Some in Hi as [[Hli Hi] | [-> <-]];
      apply lookup_snoc_Some in Hj as [[Hlj Hj] | [-> <-]].
    + eapply Hd; eassumption.
    + cbn in Hej. injection Hej as <-. fold env.
      destruct (He i rci envi Hi Hei) as (H1 & H2 & _).
      split; [|cbn; lia].
      intros t Ht Ht'. apply H1 in Ht. apply Hnew in Ht'. lia.
    + cbn in Hei. injection Hei as <-. fold env.
      destruct (He j rcj envj Hj Hej) as (H1 & H2 & _).
      split; [|cbn; lia].
      intros t Ht Ht'. apply H1 in Ht'. apply Hnew in Ht. lia.
    + contradiction.
  - intros t Ht. apply Hs in Ht. lia.
  - intros c Hin. apply Hc in Hin. lia.
Qed.

Lemma lookup_stopped (rs : list MediaRecorder) (r j : nat) (rc rc' : MediaRecorder) :
  (<[r := set_rec_state inactive (rec_timeslice rc) rc]> rs) !! j = Some rc' ->
  (j = r /\ rc' = set_rec_state inactive (rec_timeslice rc) rc) \/
  (j <> r /\ rs !! j = Some rc').
Proof.
  intros Hj. apply list_lookup_insert_Some in Hj as [(<- & <- & _) | (Hne & Hj)]; auto.
Qed.

(** The [stop] event of a recorder that is recording. *)
Lemma Rel_release nt sp nc cl rs r rc env :
  Rel_on nt sp nc cl rs ->
  rs !! r = Some rc -> rec_state rc = recording -> rec_onstop rc = Some env ->
  Rel_on nt
    (rev (map track_id (env_mic env)) ++ rev (map track_id (env_screen env)) ++ sp)
    nc (env_ctx env :: cl)
    (<[r := set_rec_state inactive (rec_timeslice rc) rc]> rs).
Proof.
  intros [Ha He Hd Hs Hc] Hr Hst Henv.
  destruct (Ha r rc Hr Hst) as (_ & Hts).
  destruct (He r rc env Hr Henv) as (Hb & Hcb & Hnd & Hcnt & Hccnt).
  rewrite (released_recording rc Hst) in Hcnt, Hccnt. cbn [once_if] in Hcnt, Hccnt.
  split.
  - intros j rc' Hj Hst'. destruct (lookup_stopped _ _ _ _ _ Hj) as [[-> ->] | [Hne Hj']].
    + discriminate.
    + exact (Ha j rc' Hj' Hst').
  - intros j rc' env' Hj Henv'.
    destruct (lookup_stopped _ _ _ _ _ Hj) as [[-> ->] | [Hne Hj']].
    + cbn in Henv'. rewrite Henv in Henv'. injection Henv' as <-.
      rewrite (released_inactive rc Hts). cbn [once_if].
      split_and!; try assumption.
      * intros t Ht. rewrite times_release, (Hcnt t Ht).
        apply (proj1 (NoDup_count_occ' Nat.eq_dec (env_tracks env)) Hnd) in Ht.
        unfold times. lia.
      * unfold times in *. cbn [count_occ].
        destruct (Nat.eq_dec (env_ctx env) (env_ctx env)); [lia | contradiction].
    + destruct (He j rc' env' Hj' Henv') as (H1 & H2 & H3 & H4 & H5).
      destruct (Hd j r rc' rc env' env Hne Hj' Hr Henv' Henv) as (Hdis & Hcne).
      split_and!; try assumption.
      * intros t Ht. rewrite times_release, (H4 t Ht).
        assert (times t (env_tracks env) = 0) as ->; [|lia].
        apply count_occ_not_In. auto.
      * unfold times in *. cbn [count_occ].
        destruct (Nat.eq_dec (env_ctx env) (env_ctx env')); [congruence | assumption].
  - intros i j rci rcj envi envj Hij Hi Hj Hei Hej.
    assert (Hold : forall k rck envk,
              (<[r := set_rec_state inactive (rec_timeslice rc) rc]> rs) !! k = Some rck ->
              rec_onstop rck = Some envk ->
              exists rck', rs !! k = Some rck' /\ rec_onstop rck' = Some envk).
    { intros k rck envk Hk Hek.
      destruct (lookup_stopped _ _ _ _ _ Hk) as [[-> ->] | [_ Hk']].
      - exists rc. split; [assumption | exact Hek].
      - exists rck. auto. }
    destruct (Hold i rci envi Hi Hei) as (rci' & Hi' & Hei').
    destruct (Hold j rcj envj Hj Hej) as (rcj' & Hj' & Hej').
    eapply Hd; eassumption.
  - intros t Ht. rewrite !in_app_iff, <- !in_rev in Ht.
    destruct Ht as [Ht | [Ht | Ht]]; [| | auto].
    + apply Hb. unfold env_tracks, getTracks. rewrite map_app, in_app_iff. auto.
    + apply Hb. unfold env_tracks, getTracks. rewrite map_app, in_app_iff. auto.
  - intros c [<- | Hin]; auto.
Qed.

(** What [recorder.stop()] does to the system. *)
Lemma recorder_stop_view (r : nat) (flush : Blob) (s : Sys) :
  let s' := MediaRecorder_stop r flush s in
  (isRecording (st s') = isRecording (st s) /\
   mediaRecorderRef s' = mediaRecorderRef s /\
   next_track (world s') = next_track (world s) /\
   contexts (world s') = contexts (world s) /\
   onended (world s') = onended (world s)) /\
  match recorders (world s) !! r with
  | Some rc =>
      match rec_state rc with
      | recording =>
          recorders (world s') =
            <[r := set_rec_state inactive (rec_timeslice rc) rc]> (recorders (world s)) /\
          match rec_onstop rc with
          | Some env =>
              stops (world s') =
                rev (map track_id (env_mic env)) ++ rev (map track_id (env_screen env))
                  ++ stops (world s) /\
              closes (world s') = env_ctx env :: closes (world s)
          | None =>
              stops (world s') = stops (world s) /\ closes (world s') = closes (world s)
          end
      | inactive => s' = s
      end
  | None => s' = s
  end.
Proof.
  cbv zeta. unfold MediaRecorder_stop.
  destruct (recorders (world s) !! r) as [rc|]; [|split_and!; reflexivity].
  destruct (rec_state rc); [split_and!; reflexivity |].
  unfold onstop, ondataavailable, getTracks.
  destruct (rec_ondataavailable rc), (Nat.ltb 0 (blob_size flush)), (rec_onstop rc);
    rewrite ?forEach_track_stop; cbn; split_and!; reflexivity.
Qed.

Lemma Rel_recorder_stop (r : nat) (flush : Blob) (s : Sys) :
  Rel s -> Rel (MediaRecorder_stop r flush s).
Proof.
  intros HR. unfold Rel in *.
  destruct (recorder_stop_view r flush s) as ((_ & _ & Hnt & Hcx & _) & Hcase).
  cbv zeta in *. rewrite Hnt, Hcx.
  destruct (recorders (world s) !! r) as [rc|] eqn:Hr; [|rewrite Hcase; exact HR].
  destruct (rec_state rc) eqn:Hst; [rewrite Hcase; exact HR |].
  destruct Hcase as (-> & Hcase).
  destruct (rel_started _ _ _ _ _ HR r rc Hr Hst) as ([env Henv] & _).
  rewrite Henv in Hcase. destruct Hcase as (-> & ->).
  eapply Rel_release; eassumption.
Qed.

Lemma Rel_stopRecording (b : bool) (flush : Blob) (s : Sys) :
  Rel s -> Rel (stopRecording b flush s).
Proof.
  intros HR. unfold stopRecording.
  destruct (mediaRecorderRef s) as [r|]; [|exact HR].
  destruct b; [|exact HR].
  apply (Rel_recorder_stop r flush s HR).
Qed.

Lemma Rel_step (e : Event) (s : Sys) : Rel s -> Rel (step e s).
Proof.
  intros HR. unfold step.
  assert (Heff : forall x, Rel x -> Rel (useEffect_recordedBlob x)).
  { intros x Hx. unfold Rel.
    destruct (effect_frame x) as (_ & _ & _ & (-> & -> & _ & -> & -> & -> & _)).
    exact Hx. }
  apply Heff. destruct e as [p | flush | iso | | r d | t flush]; cbn [handle].
  - unfold Rel in *.
    destruct (start_view (isRecording (st s)) p s) as (Hsp & Hcl & [H | H]); cbv zeta in *.
    + destruct H as (_ & _ & -> & _ & Hnt & Hnc). rewrite Hsp, Hcl.
      eapply Rel_grow; eassumption.
    + destruct H as (n & started & _ & _ & -> & _ & Hnt & Hnc).
      rewrite Hsp, Hcl, Hnc. unfold session_env.
      apply Rel_add; [assumption | exact Hnt | lia].
  - apply Rel_stopRecording, HR.
  - unfold Rel in *.
    destruct (download_view (recordedBlob (st s)) iso s)
      as (_ & _ & _ & _ & _ & (-> & -> & _ & -> & -> & -> & _)).
    exact HR.
  - exact HR.
  - unfold fire_dataavailable, ondataavailable.
    destruct (recorders (world s) !! r) as [rc|]; [|exact HR].
    destruct (rec_state rc); [exact HR |].
    destruct (rec_ondataavailable rc); [|exact HR].
    destruct (Nat.ltb 0 (blob_size d)); exact HR.
  - unfold fire_ended. cbn.
    destruct (find _ _) as [[t' c]|]; [|exact HR].
    unfold videoTrack_onended. destruct c; [|exact HR].
    apply (Rel_stopRecording true flush
             (with_world (fun w => set_ended (t :: ended w) w) s)).
    exact HR.
Qed.

Lemma Rel_run (es : list Event) (s : Sys) : Rel s -> Rel (run es s).
Proof.
  revert s. induction es as [|e es IH]; intros s HR; [exact HR |].
  unfold run in *. cbn [fold_left]. apply IH, Rel_step, HR.
Qed.

(** *** One recorder at a time *)

Lemma One_init : One init.
Proof. split; cbn; intros; [discriminate | contradiction]. Qed.

Lemma One_idle ir ref rs oe ref' :
  One_on ir ref rs oe ->
  (forall j rc, rs !! j = Some rc -> rec_state rc = inactive) ->
  One_on false ref' rs oe.
Proof.
  intros [Ha Hh] Hoff. split; [|exact Hh].
  intros j rc Hj Hst. rewrite (Hoff j rc Hj) in Hst. discriminate.
Qed.

Lemma One_stopRecording (flush : Blob) (s : Sys) :
  One s -> One (stopRecording (isRecording (st s)) flush s).
Proof.
  intros HO. unfold stopRecording.
  destruct (mediaRecorderRef s) as [r|] eqn:Href; [|exact HO].
  destruct (isRecording (st s)) eqn:Hrec; [|exact HO].
  unfold One in *. rewrite Href, Hrec in HO.
  destruct (recorder_stop_view r flush s) as ((_ & Hr' & _ & _ & Hoe) & Hcase).
  cbv zeta in *. cbn. rewrite Hr', Hoe.
  assert (Hothers : forall j rc', recorders (world s) !! j = Some rc' ->
                                  rec_state rc' = recording -> j = r).
  { intros j rc' Hj Hst. destruct (one_active _ _ _ _ HO j rc' Hj Hst) as (_ & Heq).
    congruence. }
  destruct (recorders (world s) !! r) as [rc|] eqn:Hr.
  - destruct (rec_state rc) eqn:Hst.
    + rewrite Hcase. apply (One_idle true (Some r)); [exact HO |].
      intros j rc' Hj. destruct (rec_state rc') eqn:Hst'; [reflexivity |].
      rewrite (Hothers j rc' Hj Hst') in Hj. congruence.
    + destruct Hcase as (-> & _). split; [|exact (one_handlers _ _ _ _ HO)].
      intros j rc' Hj Hst'. exfalso.
      destruct (lookup_stopped _ _ _ _ _ Hj) as [[-> ->] | [Hne Hj']].
      * discriminate.
      * apply Hne. exact (Hothers j rc' Hj' Hst').
  - rewrite Hcase. apply (One_idle true (Some r)); [exact HO |].
    intros j rc' Hj. destruct (rec_state rc') eqn:Hst'; [reflexivity |].
    rewrite (Hothers j rc' Hj Hst') in Hj. congruence.
Qed.

Lemma One_step (e : Event) (s : Sys) :
  One s ->
  match e with
  | EvStart _ => isRecording (st s) = false
  | _ => True
  end ->
  One (step e s).
Proof.
  intros HO He. unfold step.
  assert (Heff : forall x, One x -> One (useEffect_recordedBlob x)).
  { intros x Hx. unfold One.
    destruct (effect_frame x) as ((-> & _) & -> & _ & (_ & _ & _ & _ & _ & -> & -> & _)).
    exact Hx. }
  apply Heff. destruct e as [p | flush | iso | | r d | t flush]; cbn [handle].
  - unfold One in *. rewrite He in *.
    destruct (start_view false p s) as (_ & _ & [H | H]); cbv zeta in *.
    + destruct H as (-> & -> & -> & -> & _). rewrite He. exact HO.
    + destruct H as (n & started & -> & -> & -> & -> & _). rewrite He.
      destruct HO as [Ha Hh]. split.
      * intros j rc Hj Hst. apply lookup_snoc_Some in Hj as [[_ Hj] | [-> <-]].
        -- destruct (Ha j rc Hj Hst) as [Hir _]. discriminate.
        -- cbn in Hst. destruct started; [auto | discriminate].
      * intros h [<- | Hin]; [reflexivity | auto].
  - apply One_stopRecording, HO.
  - unfold One in *.
    destruct (download_view (recordedBlob (st s)) iso s)
      as (-> & _ & -> & _ & _ & (_ & _ & _ & _ & _ & -> & ->)).
    exact HO.
  - exact HO.
  - unfold fire_dataavailable, ondataavailable.
    destruct (recorders (world s) !! r) as [rc|]; [|exact HO].
    destruct (rec_state rc); [exact HO |].
    destruct (rec_ondataavailable rc); [|exact HO].
    destruct (Nat.ltb 0 (blob_size d)); exact HO.
  - unfold fire_ended. cbn.
    destruct (find _ _) as [[t' c]|] eqn:Hfind; [|exact HO].
    apply find_some in Hfind as [Hin _].
    apply (one_handlers _ _ _ _ HO) in Hin. cbn in Hin. subst c.
    exact HO.
Qed.

Lemma One_run (ok : State -> bool) (es : list Event) (s : Sys) :
  (forall t, ok t = true -> isRecording t = false) ->
  One s -> starts_when ok es s = true -> One (run es s).
Proof.
  intros Hok. revert s. induction es as [|e es IH]; intros s HO Hes; [exact HO |].
  cbn [starts_when] in Hes. apply andb_prop in Hes as [He Hes].
  unfold run in *. cbn [fold_left]. apply IH; [|exact Hes].
  apply One_step; [exact HO |].
  destruct e; try exact I. apply Hok, He.
Qed.








(** ** Stop and release *)

Lemma effect_settles (s : Sys) : depsChanged (useEffect_recordedBlob s) = false.
Proof.
  destruct s as [[ir rb er sta pv] r ch dc eu w]. unfold useEffect_recordedBlob. cbn.
  destruct dc; [|reflexivity]. destruct eu, rb; reflexivity.
Qed.

Lemma stop_twice (flush1 flush2 : Blob) (s : Sys) :
  step (EvStop flush2) (step (EvStop flush1) s) = step (EvStop flush1) s.
Proof.
  set (s1 := step (EvStop flush1) s).
  assert (Hdeps : depsChanged s1 = false) by apply effect_settles.
  assert (Hstop : handle (EvStop flush2) s1 = s1).
  { cbn [handle]. unfold stopRecording.
    destruct (mediaRecorderRef s1) as [r|] eqn:Href; [|reflexivity].
    assert (Hoff : isRecording (st s1) = false).
    { unfold s1, step in *.
      destruct (effect_frame (handle (EvStop flush1) s)) as ((-> & _) & Hr & _).
      rewrite Hr in Href. clear Hr. cbn [handle] in *. unfold stopRecording in *.
      destruct (mediaRecorderRef s) as [r0|] eqn:Hr0; [|rewrite Hr0 in Href; discriminate].
      destruct (isRecording (st s)) eqn:Hrec; [reflexivity | exact Hrec]. }
    rewrite Hoff. reflexivity. }
  unfold step at 1. rewrite Hstop. apply effect_idle, Hdeps.
Qed.

(** C6. [stopRecording] does nothing in any state that is not the
    recording state, and a second stop in a row changes nothing. In every
    run of the mounted component -- any sequence of start, stop, reset and
    download calls, [dataavailable] events and tracks ended by the
    platform, whatever the platform answers -- each session (a recorder
    with the two captures and the audio context its [onstop] handler
    holds) has had [stop()] called on each of its device tracks, and
    [close()] on its audio context, exactly once if it was started and has
    stopped, and not at all otherwise. *)
Theorem stop_releases_once :
  (forall s flush, session_state (st s) <> Recording -> handle (EvStop flush) s = s) /\
  (forall s flush1 flush2,
     step (EvStop flush2) (step (EvStop flush1) s) = step (EvStop flush1) s) /\
  (forall es j rc env,
     recorders (world (run es init)) !! j = Some rc ->
     rec_onstop rc = Some env ->
     (forall t, In t (env_tracks env) ->
                times t (stops (world (run es init))) = once_if (released rc)) /\
     times (env_ctx env) (closes (world (run es init))) = once_if (released rc)).
Proof.
  split_and!.
  - intros s flush Hst. cbn [handle]. unfold stopRecording.
    destruct (isRecording (st s)) eqn:Hrec.
    + exfalso. apply Hst. unfold session_state. rewrite Hrec. reflexivity.
    + destruct (mediaRecorderRef s); reflexivity.
  - intros s flush1 flush2. apply stop_twice.
  - intros es j rc env Hj Henv.
    pose proof (Rel_run es init Rel_init) as HR.
    destruct (rel_env _ _ _ _ _ HR j rc env Hj Henv) as (_ & _ & _ & H1 & H2).
    split; assumption.
Qed.

Lemma stop_releases_once_witness :
  let chunk := mkBlob ["001"%byte] "video/webm" in
  let es := [EvStart (granting 1); EvData 0 chunk; EvStop chunk; EvStop chunk; EvReset;
             EvStart (granting 0); EvStop chunk] in
  let s := run es init in
  (times 0 (stops (world s)) = 1 /\ times 1 (stops (world s)) = 1 /\
   times 2 (stops (world s)) = 1) /\
  times 0 (closes (world s)) = 1.
Proof.
  cbv zeta.
  destruct (proj2 (proj2 stop_releases_once)
              [EvStart (granting 1); EvData 0 (mkBlob ["001"%byte] "video/webm");
               EvStop (mkBlob ["001"%byte] "video/webm");
               EvStop (mkBlob ["001"%byte] "video/webm"); EvReset;
               EvStart (granting 0); EvStop (mkBlob ["001"%byte] "video/webm")]
              0
              (mkMediaRecorder [mkTrack 0 Video; mkTrack 3 Audio] "video/webm;codecs=vp9,opus"
                 inactive (Some 100) true
                 (Some (mkStopEnv [mkTrack 0 Video; mkTrack 1 Audio] [mkTrack 2 Audio] 0)))
              (mkStopEnv [mkTrack 0 Video; mkTrack 1 Audio] [mkTrack 2 Audio] 0)
              ltac:(vm_compute; reflexivity) eq_refl) as [Htracks Hctx].
  split; [|exact Hctx].
  split_and!; apply Htracks; cbn; auto.
Defined.

(** * Further properties *)

(** ** The outcome of [startRecording] *)

(** What [startRecording] never touches, on any platform: the artifact,
    the preview URL, the effect's bookkeeping, the object URLs, the
    downloads and the tracks ended by the platform; and the chunk buffer
    is either as it was or empty. *)
Lemma start_frame (b : bool) (p : Platform) (s : Sys) :
  let s' := startRecording b p s in
  (recordedBlob (st s') = recordedBlob (st s) /\
   previewUrl (st s') = previewUrl (st s) /\
   depsChanged s' = depsChanged s /\
   effectUrl s' = effectUrl s) /\
  (urls (world s') = urls (world s) /\
   next_url (world s') = next_url (world s) /\
   downloads (world s') = downloads (world s) /\
   ended (world s') = ended (world s)) /\
  (recordedChunks s' = recordedChunks s \/ recordedChunks s' = []).
Proof.
  destruct s as [[ir rb er sta pv] rf ch dc eu [nt sp en cx cl rs oe nu us ds]].
  platform_cases p; js_unfold; cbn; split_and!; auto.
Qed.



(** X1. [startRecording] succeeds exactly when no step fails on the
    platform; when one does, the error shown is that of the first failing
    step in the order of the source (the two capability checks, the
    display capture, the microphone capture, the audio context, the
    recorder, its start), the status text is back to ["Ready to record"]
    and the recording flag is as before. *)
Theorem start_outcome (b : bool) (p : Platform) (s : Sys) :
  let s' := startRecording b p s in
  match first_failure p with
  | None =>
      isRecording (st s') = true /\
      status (st s') = "Recording in progress..." /\
      error (st s') = "" /\
      mediaRecorderRef s' = Some (length (recorders (world s)))
  | Some e =>
      isRecording (st s') = isRecording (st s) /\
      status (st s') = "Ready to record" /\
      error (st s') = failure_text e
  end.
Proof.
  destruct s as [[ir rb er sta pv] rf ch dc eu [nt sp en cx cl rs oe nu us ds]].
  platform_cases p; js_unfold; cbn; split_and!; reflexivity.
Qed.

(** X2. When a capability check fails nothing else of the platform is
    consulted and nothing is acquired: the result is the state before the
    call with the error text and the status text set, the same whatever
    the platform would have answered to the device requests. The missing
    API is reported before the insecure context. *)
Theorem capability_failure_acquires_nothing (b : bool) (p : Platform) (s : Sys) :
  has_mediaDevices p && has_getDisplayMedia p && isSecureContext p = false ->
  startRecording b p s =
  mkSys (mkState (isRecording (st s)) (recordedBlob (st s))
           (if has_mediaDevices p && has_getDisplayMedia p
            then "Failed to start recording: Screen recording requires HTTPS or localhost. Please access this page over HTTPS."
            else "Failed to start recording: Screen recording is not supported in this browser. Please use Chrome, Edge, or Firefox.")
           "Ready to record" (previewUrl (st s)))
        (mediaRecorderRef s) (recordedChunks s) (depsChanged s) (effectUrl s) (world s).
Proof.
  intros H. destruct s as [[ir rb er sta pv] rf ch dc eu w].
  destruct p as [[|] [|] [|] pd pu pa pr pq]; cbn in H; try discriminate H;
    js_unfold; reflexivity.
Qed.

Lemma capability_failure_acquires_nothing_witness :
  world (startRecording false
           (mkPlatform true true false (inr 1) None None None None) init) = world init.
Proof.
  rewrite (capability_failure_acquires_nothing false
             (mkPlatform true true false (inr 1) None None None None) init eq_refl).
  reflexivity.
Defined.

(** ** Reset and download *)

(** X3. Resetting twice is resetting once. *)
Theorem reset_idempotent (s : Sys) :
  step EvReset (step EvReset s) = step EvReset s.
Proof.
  destruct s as [[ir rb er sta pv] rf ch dc eu [nt sp en cx cl rs oe nu us ds]].
  unfold step, handle, resetRecording, useEffect_recordedBlob.
  js_unfold. destruct rb, dc, eu; reflexivity.
Qed.

Lemma substring_prefix (a b : string) :
  String.substring 0 (String.length a) (a +:+ b) = a.
Proof.
  induction a as [|c a IH].
  - destruct b; reflexivity.
  - change (String c (String.substring 0 (String.length a) (a +:+ b)) = String c a).
    f_equal. exact IH.
Qed.

(** X4. For a timestamp whose first nineteen characters are [date] (the
    date and the time to the second of an ISO string), the downloaded file
    is named [screen-recording-] [date] [.webm]: the fraction of a second
    and the zone are cut off. *)
Theorem download_name (date rest : string) (blob : Blob) (s : Sys) :
  String.length date = 19 ->
  recordedBlob (st s) = Some blob ->
  downloads (world (handle (EvDownload (date +:+ rest)) s)) =
    ("screen-recording-" +:+ date +:+ ".webm", Some blob) :: downloads (world s).
Proof.
  intros Hlen Hblob. cbn [handle]. rewrite Hblob.
  destruct s as [t rf ch dc eu w].
  unfold downloadRecording, createObjectURL, revokeObjectURL, url_blob. cbn.
  rewrite Nat.eqb_refl. cbn.
  rewrite <- Hlen, substring_prefix. reflexivity.
Qed.

Lemma download_name_witness :
  let s := run [EvStart (granting 1); EvStop (mkBlob ["001"%byte] "video/webm")] init in
  downloads (world (handle (EvDownload "2024-01-02T03:04:05.678Z") s)) =
    [("screen-recording-2024-01-02T03:04:05.webm", Some (mkBlob ["001"%byte] "video/webm"))].
Proof.
  cbv zeta.
  exact (download_name "2024-01-02T03:04:05" ".678Z" (mkBlob ["001"%byte] "video/webm")
           (run [EvStart (granting 1); EvStop (mkBlob ["001"%byte] "video/webm")] init)
           eq_refl eq_refl).
Defined.

(** ** Object URLs *)

(** What [recorder.stop()] does to the React state, the chunk buffer and
    the object URLs. *)
Lemma recorder_stop_state (r : nat) (flush : Blob) (s : Sys) :
  let s' := MediaRecorder_stop r flush s in
  (error (st s') = error (st s) /\
   previewUrl (st s') = previewUrl (st s) /\
   effectUrl s' = effectUrl s /\
   urls (world s') = urls (world s) /\
   next_url (world s') = next_url (world s) /\
   downloads (world s') = downloads (world s)) /\
  (exists extra,
     recordedChunks s' = recordedChunks s ++ extra /\
     (extra = [] \/ (extra = [flush] /\ nonzero flush = true))) /\
  ((recordedBlob (st s') = recordedBlob (st s) /\
    status (st s') = status (st s) /\
    depsChanged s' = depsChanged s)
   \/
   (recordedBlob (st s') = Some (Blob_new (recordedChunks s') "video/webm") /\
    status (st s') = "Recording completed" /\
    depsChanged s' = true /\
    exists rc, recorders (world s) !! r = Some rc /\ rec_state rc = recording /\
               is_Some (rec_onstop rc))).
Proof.
  cbv zeta. unfold MediaRecorder_stop.
  destruct (recorders (world s) !! r) as [rc|] eqn:Hr.
  2:{ split_and!; try reflexivity; [exists []; rewrite app_nil_r; auto | left; auto]. }
  destruct (rec_state rc) eqn:Hst.
  { split_and!; try reflexivity; [exists []; rewrite app_nil_r; auto | left; auto]. }
  unfold onstop, ondataavailable, getTracks, nonzero.
  destruct (rec_ondataavailable rc), (Nat.ltb 0 (blob_size flush)) eqn:Hnz,
           (rec_onstop rc) as [env|] eqn:Henv;
    rewrite ?forEach_track_stop; cbn; rewrite ?orb_true_r;
    (split; [split_and!; reflexivity |]); split.
  all: try (exists [flush]; split; [reflexivity | right; split; reflexivity]).
  all: try (exists []; rewrite app_nil_r; split; [reflexivity | left; reflexivity]).
  all: try (left; split_and!; reflexivity).
  all: right; split_and!; try reflexivity; exists rc; split_and!; eauto.
Qed.

Lemma Urls_ext (s x : Sys) :
  recordedBlob (st x) = recordedBlob (st s) ->
  previewUrl (st x) = previewUrl (st s) ->
  depsChanged x = depsChanged s ->
  effectUrl x = effectUrl s ->
  urls (world x) = urls (world s) ->
  next_url (world x) = next_url (world s) ->
  Urls s -> Urls x.
Proof. unfold Urls. intros -> -> -> -> -> ->. auto. Qed.

(** The effect settles the object URLs of a state a handler left. *)
Lemma effect_settles_urls (x : Sys) :
  match effectUrl x with
  | Some u => exists b, urls (world x) = [(u, b)] /\ u < next_url (world x)
  | None => urls (world x) = []
  end ->
  (depsChanged x = false -> Urls x) ->
  (recordedBlob (st x) = None -> previewUrl (st x) = None) ->
  Urls (useEffect_recordedBlob x).
Proof.
  intros Hpre Hclean Hprev.
  destruct (depsChanged x) eqn:Hdc; [|rewrite effect_idle; auto].
  destruct x as [[ir rb er sta pv] rf ch dc eu [nt sp en cx cl rs oe nu us ds]].
  cbn in *. subst dc. clear Hclean. unfold Urls, useEffect_recordedBlob. js_unfold. cbn.
  destruct eu as [u|].
  - destruct Hpre as (b0 & -> & Hu). cbn. rewrite Nat.eqb_refl. cbn.
    destruct rb as [blob|]; cbn.
    + split; [reflexivity |]. exists nu. split_and!; auto.
    + split; [reflexivity |]. split_and!; auto.
  - subst us. destruct rb as [blob|]; cbn.
    + split; [reflexivity |]. exists nu. split_and!; auto.
    + split; [reflexivity |]. split_and!; auto.
Qed.

Lemma Urls_pre (s : Sys) :
  Urls s ->
  match effectUrl s with
  | Some u => exists b, urls (world s) = [(u, b)] /\ u < next_url (world s)
  | None => urls (world s) = []
  end.
Proof.
  intros (_ & H). destruct (recordedBlob (st s)) as [blob|].
  - destruct H as (u & -> & _ & Hu & Hlt). eauto.
  - destruct H as (-> & _ & Hu). exact Hu.
Qed.

Lemma Urls_preview (s : Sys) :
  Urls s -> recordedBlob (st s) = None -> previewUrl (st s) = None.
Proof. intros (_ & H) Hb. rewrite Hb in H. tauto. Qed.

Lemma Urls_stopRecording (b : bool) (flush : Blob) (s : Sys) :
  Urls s -> Urls (useEffect_recordedBlob (stopRecording b flush s)).
Proof.
  intros HU. pose proof HU as (Hdc & _).
  unfold stopRecording.
  destruct (mediaRecorderRef s) as [r|]; [|rewrite effect_idle; auto].
  destruct b; [|rewrite effect_idle; auto].
  destruct (recorder_stop_state r flush s)
    as ((_ & Hpv & Heu & Hus & Hnu & _) & _ & Hcase). cbv zeta in *.
  apply effect_settles_urls.
  - cbn. rewrite Heu, Hus, Hnu. apply Urls_pre, HU.
  - cbn. intros Hclean. destruct Hcase as [(Hb & _ & Hd) | (_ & _ & Hd & _)]; [|congruence].
    apply (Urls_ext s); cbn; auto.
  - cbn. intros Hnone. destruct Hcase as [(Hb & _) | (Hb & _)]; [|congruence].
    rewrite Hpv. apply Urls_preview; [exact HU | congruence].
Qed.

Lemma Urls_step (e : Event) (s : Sys) : Urls s -> Urls (step e s).
Proof.
  intros HU. pose proof HU as (Hdc & Hcase). unfold step.
  destruct e as [p | flush | iso | | r d | t flush]; cbn [handle].
  - destruct (start_frame (isRecording (st s)) p s)
      as ((H1 & H2 & H3 & H4) & (H5 & H6 & _) & _). cbv zeta in *.
    rewrite effect_idle; [|congruence].
    apply (Urls_ext s); auto.
  - apply Urls_stopRecording, HU.
  - destruct s as [[ir rb er sta pv] rf ch dc eu [nt sp en cx cl rs oe nu us ds]].
    cbn in *. subst dc. destruct rb as [blob|]; [|rewrite effect_idle; auto].
    destruct Hcase as (u & -> & -> & -> & Hlt).
    unfold Urls, downloadRecording, useEffect_recordedBlob. js_unfold. cbn.
    rewrite Nat.eqb_refl. cbn.
    destruct (Nat.eqb_spec u nu) as [-> | Hne]; [lia |]. cbn.
    split; [reflexivity |]. exists u. split_and!; auto.
  - destruct s as [[ir rb er sta pv] rf ch dc eu [nt sp en cx cl rs oe nu us ds]].
    cbn in *. subst dc. unfold Urls, resetRecording, useEffect_recordedBlob. js_unfold.
    destruct rb as [blob|]; cbn.
    + destruct Hcase as (u & -> & -> & -> & Hlt). cbn. rewrite Nat.eqb_refl. cbn. auto.
    + destruct Hcase as (-> & -> & ->). auto.
  - rewrite effect_idle.
    + apply (Urls_ext s); auto; unfold fire_dataavailable, ondataavailable;
        destruct (recorders (world s) !! r) as [rc|]; try reflexivity;
        destruct (rec_state rc), (rec_ondataavailable rc), (Nat.ltb 0 (blob_size d));
        reflexivity.
    + unfold fire_dataavailable, ondataavailable;
        destruct (recorders (world s) !! r) as [rc|]; try exact Hdc;
        destruct (rec_state rc), (rec_ondataavailable rc), (Nat.ltb 0 (blob_size d));
        exact Hdc.
  - unfold fire_ended.
    set (s0 := with_world (fun w => set_ended (t :: ended w) w) s).
    assert (HU0 : Urls s0) by (apply (Urls_ext s); auto).
    destruct (find _ _) as [[t' c]|]; [|rewrite effect_idle; [exact HU0 | exact Hdc]].
    unfold videoTrack_onended. destruct c; [|rewrite effect_idle; [exact HU0 | exact Hdc]].
    apply Urls_stopRecording, HU0.
Qed.

Lemma Urls_run (es : list Event) (s : Sys) : Urls s -> Urls (run es s).
Proof.
  revert s. induction es as [|e es IH]; intros s HU; [exact HU |].
  unfold run in *. cbn [fold_left]. apply IH, Urls_step, HU.
Qed.

Lemma Urls_init : Urls init.
Proof. split; cbn; auto. Qed.

(** X5. In every run of the mounted component the preview URL is there
    exactly when an artifact is, it resolves to that artifact, and it is
    the only object URL that has not been revoked: neither the downloads
    nor the record and reset cycles leave an object URL behind. *)
Theorem preview_url_is_the_only_url (es : list Event) :
  let s := run es init in
  match recordedBlob (st s) with
  | Some blob =>
      exists u, previewUrl (st s) = Some u /\
                url_blob u (world s) = Some blob /\
                urls (world s) = [(u, blob)]
  | None => previewUrl (st s) = None /\ urls (world s) = []
  end.
Proof.
  cbv zeta. destruct (Urls_run es init Urls_init) as (_ & H).
  destruct (recordedBlob (st (run es init))) as [blob|].
  - destruct H as (u & _ & Hp & Hu & _). exists u. split_and!; auto.
    unfold url_blob. rewrite Hu. cbn. rewrite Nat.eqb_refl. reflexivity.
  - tauto.
Qed.

(** ** Runs through the interface *)

(** A [dataavailable] event changes nothing but the chunk buffer. *)
Lemma data_view (r : nat) (d : Blob) (s : Sys) :
  let s' := fire_dataavailable r d s in
  st s' = st s /\ mediaRecorderRef s' = mediaRecorderRef s /\
  depsChanged s' = depsChanged s /\ effectUrl s' = effectUrl s /\ world s' = world s /\
  exists extra, recordedChunks s' = recordedChunks s ++ extra /\
                (extra = [] \/ (extra = [d] /\ nonzero d = true)).
Proof.
  cbv zeta. unfold fire_dataavailable, ondataavailable, nonzero.
  destruct (recorders (world s) !! r) as [rc|].
  2:{ split_and!; try reflexivity. exists []. rewrite app_nil_r. auto. }
  destruct (rec_state rc), (rec_ondataavailable rc), (Nat.ltb 0 (blob_size d)) eqn:Hnz;
    cbn; split_and!; try reflexivity;
    first [ exists [d]; split; [reflexivity | right; split; reflexivity]
          | exists []; rewrite app_nil_r; auto ].
Qed.



Lemma offered_start (t : State) :
  start_offered t = true -> isRecording t = false /\ recordedBlob t = None.
Proof.
  unfold start_offered. destruct (isRecording t), (recordedBlob t); cbn; intros H;
    try discriminate H; auto.
Qed.






(** ** The artifact once made *)






(** ** The chunk buffer *)

Lemma stopRecording_chunks (b : bool) (flush : Blob) (s : Sys) :
  exists extra,
    recordedChunks (stopRecording b flush s) = recordedChunks s ++ extra /\
    (extra = [] \/ (extra = [flush] /\ nonzero flush = true)).
Proof.
  unfold stopRecording.
  destruct (mediaRecorderRef s) as [r|]; [|exists []; rewrite app_nil_r; auto].
  destruct b; [|exists []; rewrite app_nil_r; auto].
  destruct (recorder_stop_state r flush s) as (_ & Hch & _). exact Hch.
Qed.

(** What an event does to the chunk buffer. *)
Lemma chunks_step (e : Event) (s : Sys) :
  match e with
  | EvStart _ => recordedChunks (step e s) = recordedChunks s \/ recordedChunks (step e s) = []
  | _ => exists extra,
           recordedChunks (step e s) = recordedChunks s ++ extra /\
           (extra = [] \/ exists d, extra = [d] /\ nonzero d = true)
  end.
Proof.
  assert (Heff : forall ev, recordedChunks (step ev s) = recordedChunks (handle ev s)).
  { intros ev. unfold step. destruct (effect_frame (handle ev s)) as (_ & _ & H & _).
    exact H. }
  destruct e as [p | flush | iso | | r d | t flush]; rewrite Heff; cbn [handle].
  - destruct (start_frame (isRecording (st s)) p s) as (_ & _ & H). exact H.
  - destruct (stopRecording_chunks (isRecording (st s)) flush s) as (extra & H & [He | [He Hnz]]);
      exists extra; eauto.
  - destruct (download_view (recordedBlob (st s)) iso s) as (_ & -> & _).
    exists []. rewrite app_nil_r. auto.
  - exists []. rewrite app_nil_r. auto.
  - destruct (data_view r d s) as (_ & _ & _ & _ & _ & extra & H & [He | [He Hnz]]);
      exists extra; eauto.
  - unfold fire_ended. cbn.
    destruct (find _ _) as [[t' c]|]; [|exists []; rewrite app_nil_r; auto].
    unfold videoTrack_onended. destruct c; [|exists []; rewrite app_nil_r; auto].
    match goal with
    | |- context [stopRecording true flush ?x] =>
        destruct (stopRecording_chunks true flush x) as (extra & H & [He | [He Hnz]])
    end; exists extra; eauto.
Qed.

(** X8. The chunk buffer is append-only between starts and never holds
    an empty segment: an event other than a start adds at most one segment
    at the end of the buffer, of non-zero size; a start leaves the buffer
    as it was (when it fails before the recorder is set up) or empty; and
    in every run of the mounted component every segment in the buffer has
    a non-zero size. *)
Theorem chunk_buffer_discipline :
  (forall s e,
     match e with
     | EvStart _ =>
         recordedChunks (step e s) = recordedChunks s \/ recordedChunks (step e s) = []
     | _ =>
         exists extra,
           recordedChunks (step e s) = recordedChunks s ++ extra /\
           length extra <= 1 /\
           Forall (fun d => 0 < blob_size d) extra
     end) /\
  (forall es, Forall (fun d => 0 < blob_size d) (recordedChunks (run es init))).
Proof.
  assert (Hstep : forall s e,
     match e with
     | EvStart _ =>
         recordedChunks (step e s) = recordedChunks s \/ recordedChunks (step e s) = []
     | _ =>
         exists extra,
           recordedChunks (step e s) = recordedChunks s ++ extra /\
           length extra <= 1 /\
           Forall (fun d => 0 < blob_size d) extra
     end).
  { intros s e. pose proof (chunks_step e s) as H.
    destruct e; try exact H;
      destruct H as (extra & H & [He | (d & He & Hnz)]); exists extra; subst extra;
      (split; [exact H |]); cbn; (split; [lia |]); repeat constructor;
      apply Nat.ltb_lt; exact Hnz. }
  split; [exact Hstep |].
  intros es.
  assert (Hgen : forall s, Forall (fun d => 0 < blob_size d) (recordedChunks s) ->
                           Forall (fun d => 0 < blob_size d) (recordedChunks (run es s))).
  { induction es as [|e es IH]; intros s Hs; [exact Hs |].
    unfold run in *. cbn [fold_left]. apply IH.
    pose proof (Hstep s e) as H. destruct e;
      try (destruct H as (extra & -> & _ & Hex); apply Forall_app; split; assumption).
    destruct H as [-> | ->]; [exact Hs | constructor]. }
  apply Hgen. constructor.
Qed.

(** ** The recorders *)

Lemma Configured_stopped (rc : MediaRecorder) :
  Configured rc -> Configured (set_rec_state inactive (rec_timeslice rc) rc).
Proof. unfold Configured. cbn. auto. Qed.

Lemma Configured_new (nt n : nat) (c : nat) (started : bool) :
  Configured
    (mkMediaRecorder [mkTrack nt Video; mixed_track nt n] "video/webm;codecs=vp9,opus"
       (if started then recording else inactive)
       (if started then Some 100 else None) true
       (Some (mkStopEnv (screen_stream nt n) (mic_stream nt n) c))).
Proof.
  unfold Configured. cbn. split_and!; [reflexivity | reflexivity | destruct started; auto |].
  eexists _, _, _. split_and!; try reflexivity.
  - cbn. unfold getVideoTracks, screen_stream. cbn. rewrite audio_tracks_video. reflexivity.
  - rewrite session_env_tracks. cbn [mixed_track track_id]. rewrite in_seq. lia.
Qed.

Lemma stopRecording_recorders (b : bool) (flush : Blob) (s : Sys) :
  recorders (world (stopRecording b flush s)) = recorders (world s) \/
  exists r rc, recorders (world s) !! r = Some rc /\
               recorders (world (stopRecording b flush s)) =
                 <[r := set_rec_state inactive (rec_timeslice rc) rc]> (recorders (world s)).
Proof.
  unfold stopRecording.
  destruct (mediaRecorderRef s) as [r|]; [|auto].
  destruct b; [|auto].
  destruct (recorder_stop_view r flush s) as (_ & H). cbv zeta in H. cbn.
  destruct (recorders (world s) !! r) as [rc|] eqn:Hr; [|rewrite H; auto].
  destruct (rec_state rc); [rewrite H; auto |].
  destruct H as (H & _). right. exists r, rc. auto.
Qed.

Lemma All_configured_stop (b : bool) (flush : Blob) (s : Sys) :
  All_configured s -> All_configured (stopRecording b flush s).
Proof.
  intros HA j rc' Hj.
  destruct (stopRecording_recorders b flush s) as [H | (r & rc & Hr & H)]; rewrite H in Hj.
  - exact (HA j rc' Hj).
  - destruct (lookup_stopped _ _ _ _ _ Hj) as [[-> ->] | [_ Hj']].
    + apply Configured_stopped, (HA r rc Hr).
    + exact (HA j rc' Hj').
Qed.

Lemma All_configured_step (e : Event) (s : Sys) :
  All_configured s -> All_configured (step e s).
Proof.
  intros HA.
  assert (Heff : forall x, All_configured x -> All_configured (useEffect_recordedBlob x)).
  { intros x Hx. unfold All_configured.
    destruct (effect_frame x) as (_ & _ & _ & (_ & _ & _ & _ & _ & -> & _)). exact Hx. }
  unfold step. apply Heff.
  destruct e as [p | flush | iso | | r d | t flush]; cbn [handle].
  - unfold All_configured.
    destruct (start_view (isRecording (st s)) p s) as (_ & _ & [H | H]); cbv zeta in H.
    + destruct H as (_ & _ & -> & _). exact HA.
    + destruct H as (n & started & _ & _ & -> & _).
      intros j rc Hj. apply lookup_snoc_Some in Hj as [[_ Hj] | [_ <-]].
      * exact (HA j rc Hj).
      * apply Configured_new.
  - apply All_configured_stop, HA.
  - unfold All_configured.
    destruct (download_view (recordedBlob (st s)) iso s)
      as (_ & _ & _ & _ & _ & (_ & _ & _ & _ & _ & -> & _)).
    exact HA.
  - exact HA.
  - unfold All_configured. destruct (data_view r d s) as (_ & _ & _ & _ & -> & _). exact HA.
  - unfold fire_ended. cbn.
    destruct (find _ _) as [[t' c]|]; [|exact HA].
    unfold videoTrack_onended. destruct c; [|exact HA].
    apply All_configured_stop. exact HA.
Qed.

(** X9. Every recorder the component ever creates records the same two
    tracks in the same way: its stream is the display's video track
    followed by one audio track that is not a track of either capture (it
    is the mixer's), its type is [video/webm;codecs=vp9,opus], both of its
    handlers are installed, and if it was started it emits a segment every
    100 ms. *)
Theorem recorders_configured (es : list Event) (j : nat) (rc : MediaRecorder) :
  recorders (world (run es init)) !! j = Some rc ->
  rec_mimeType rc = "video/webm;codecs=vp9,opus" /\
  rec_ondataavailable rc = true /\
  (rec_timeslice rc = None \/ rec_timeslice rc = Some 100) /\
  exists video mixed env,
    rec_stream rc = [video; mixed] /\
    track_kind video = Video /\ track_kind mixed = Audio /\
    rec_onstop rc = Some env /\
    getVideoTracks (env_screen env) = [video] /\
    ~ In (track_id mixed) (env_tracks env).
Proof.
  assert (Hrun : forall s, All_configured s -> All_configured (run es s)).
  { induction es as [|e es IH]; intros s Hs; [exact Hs |].
    unfold run in *. cbn [fold_left]. apply IH, All_configured_step, Hs. }
  intros Hj.
  assert (Hinit : All_configured init) by (intros k rck Hk; discriminate Hk).
  exact (Hrun init Hinit j rc Hj).
Qed.

Lemma recorders_configured_witness :
  let es := [EvStart (granting 1); EvStart (granting 0); EvStop (mkBlob [] "video/webm")] in
  let rc := mkMediaRecorder [mkTrack 4 Video; mkTrack 6 Audio] "video/webm;codecs=vp9,opus"
              inactive (Some 100) true
              (Some (mkStopEnv [mkTrack 4 Video] [mkTrack 5 Audio] 1)) in
  recorders (world (run es init)) !! 1 = Some rc /\
  rec_mimeType rc = "video/webm;codecs=vp9,opus".
Proof.
  cbv zeta. split; [vm_compute; reflexivity |].
  exact (proj1
           (recorders_configured
              [EvStart (granting 1); EvStart (granting 0); EvStop (mkBlob [] "video/webm")]
              1
              (mkMediaRecorder [mkTrack 4 Video; mkTrack 6 Audio] "video/webm;codecs=vp9,opus"
                 inactive (Some 100) true
                 (Some (mkStopEnv [mkTrack 4 Video] [mkTrack 5 Audio] 1)))
              ltac:(vm_compute; reflexivity))).
Defined.

(** ** A capture left behind by a failed start *)

Lemma Orphan_stopRecording (t : nat) (b : bool) (flush : Blob) (s : Sys) :
  Orphan t s -> Orphan t (stopRecording b flush s).
Proof.
  intros (Hlt & Hsp & Henv). unfold stopRecording.
  destruct (mediaRecorderRef s) as [r|]; [|split_and!; assumption].
  destruct b; [|split_and!; assumption].
  destruct (recorder_stop_view r flush s) as ((_ & _ & Hnt & _) & H). cbv zeta in *.
  unfold Orphan. cbn. rewrite Hnt.
  destruct (recorders (world s) !! r) as [rc|] eqn:Hr; [|rewrite H; split_and!; assumption].
  destruct (rec_state rc); [rewrite H; split_and!; assumption |].
  destruct H as (Hrs & H). rewrite Hrs.
  assert (Hold : forall j rc' env, (<[r := set_rec_state inactive (rec_timeslice rc) rc]>
                                      (recorders (world s))) !! j = Some rc' ->
                                   rec_onstop rc' = Some env -> ~ In t (env_tracks env)).
  { intros j rc' env Hj He. destruct (lookup_stopped _ _ _ _ _ Hj) as [[-> ->] | [_ Hj']].
    - exact (Henv r rc env Hr He).
    - exact (Henv j rc' env Hj' He). }
  destruct (rec_onstop rc) as [env|] eqn:He.
  - destruct H as (-> & _). split_and!; [assumption | | exact Hold].
    rewrite !in_app_iff, <- !in_rev. intros [Hin | [Hin | Hin]]; [| | auto].
    + apply (Henv r rc env Hr He). unfold env_tracks, getTracks.
      rewrite map_app, in_app_iff. auto.
    + apply (Henv r rc env Hr He). unfold env_tracks, getTracks.
      rewrite map_app, in_app_iff. auto.
  - destruct H as (-> & _). split_and!; assumption.
Qed.

Lemma Orphan_step (t : nat) (e : Event) (s : Sys) : Orphan t s -> Orphan t (step e s).
Proof.
  intros HO.
  assert (Heff : forall x, Orphan t x -> Orphan t (useEffect_recordedBlob x)).
  { intros x Hx. unfold Orphan.
    destruct (effect_frame x) as (_ & _ & _ & (-> & -> & _ & _ & _ & -> & _)). exact Hx. }
  unfold step. apply Heff.
  destruct e as [p | flush | iso | | r d | t' flush]; cbn [handle].
  - destruct HO as (Hlt & Hsp & Henv). unfold Orphan.
    destruct (start_view (isRecording (st s)) p s) as (-> & _ & [H | H]); cbv zeta in H.
    + destruct H as (_ & _ & -> & _ & Hnt & _). split_and!; [lia | assumption | assumption].
    + destruct H as (n & started & _ & _ & -> & _ & -> & _).
      split_and!; [lia | assumption |].
      intros j rc env Hj He. apply lookup_snoc_Some in Hj as [[_ Hj] | [_ <-]].
      * exact (Henv j rc env Hj He).
      * cbn in He. injection He as <-. unfold session_env.
        rewrite session_env_tracks, in_seq. lia.
  - apply Orphan_stopRecording, HO.
  - unfold Orphan.
    destruct (download_view (recordedBlob (st s)) iso s)
      as (_ & _ & _ & _ & _ & (-> & -> & _ & _ & _ & -> & _)).
    exact HO.
  - exact HO.
  - unfold Orphan. destruct (data_view r d s) as (_ & _ & _ & _ & -> & _). exact HO.
  - unfold fire_ended. cbn.
    destruct (find _ _) as [[t0 c]|]; [|exact HO].
    unfold videoTrack_onended. destruct c; [|exact HO].
    apply Orphan_stopRecording. exact HO.
Qed.

Lemma Orphan_run (t : nat) (es : list Event) (s : Sys) : Orphan t s -> Orphan t (run es s).
Proof.
  revert s. induction es as [|e es IH]; intros s HO; [exact HO |].
  unfold run in *. cbn [fold_left]. apply IH, Orphan_step, HO.
Qed.

(** The display capture of a start whose microphone request fails. *)
Lemma microphone_failure_view (b : bool) (s : Sys) (n : nat) (e : Thrown)
    (a r q : option Thrown) :
  let s' := step (EvStart (mkPlatform true true true (inr n) (Some e) a r q)) s in
  stops (world s') = stops (world s) /\
  recorders (world s') = recorders (world s) /\
  next_track (world s') = S (next_track (world s) + n).
Proof.
  cbv zeta. unfold step.
  destruct (effect_frame (handle (EvStart (mkPlatform true true true (inr n) (Some e) a r q)) s))
    as (_ & _ & _ & (-> & -> & _ & _ & _ & -> & _)).
  destruct s as [t rf ch dc eu [nt sp en cx cl rs oe nu us ds]].
  cbn [handle]. js_unfold. cbn. split_and!; reflexivity.
Qed.

(** X10. A display capture granted to a start whose microphone request
    then fails is never released: at whatever point of whatever run the
    failed start happens, and whatever happens afterwards, [stop()] is
    never called on any of the capture's tracks. *)
Theorem abandoned_capture_never_stopped (es es' : list Event) (n : nat) (e : Thrown)
    (a r q : option Thrown) :
  let s0 := run es init in
  let s1 := run es' (step (EvStart (mkPlatform true true true (inr n) (Some e) a r q)) s0) in
  Forall (fun t => times (track_id t) (stops (world s1)) = 0)
         (screen_stream (next_track (world s0)) n).
Proof.
  cbv zeta. set (s0 := run es init).
  set (p := mkPlatform true true true (inr n) (Some e) a r q).
  pose proof (Rel_run es init Rel_init) as HR. fold s0 in HR.
  destruct (microphone_failure_view (isRecording (st s0)) s0 n e a r q) as (Hsp & Hrs & Hnt).
  fold p in Hsp, Hrs, Hnt.
  assert (Hall : forall t, next_track (world s0) <= t < S (next_track (world s0) + n) ->
                           Orphan t (step (EvStart p) s0)).
  { intros t Ht. unfold Orphan. rewrite Hsp, Hrs, Hnt. split_and!; [lia | |].
    - intros Hin. apply (rel_stops _ _ _ _ _ HR) in Hin. lia.
    - intros j rc env Hj He Hin.
      destruct (rel_env _ _ _ _ _ HR j rc env Hj He) as (Hb & _).
      apply Hb in Hin. lia. }
  apply List.Forall_forall. intros t Hin.
  assert (Ht : next_track (world s0) <= track_id t < S (next_track (world s0) + n)).
  { unfold screen_stream in Hin. destruct Hin as [<- | Hin]; [cbn; lia |].
    apply in_map_iff in Hin as (i & <- & Hi). apply in_seq in Hi. cbn. lia. }
  destruct (Orphan_run _ es' _ (Hall _ Ht)) as (_ & Hnot & _).
  apply count_occ_not_In. exact Hnot.
Qed.

(** ** Stop and native stop-sharing, in runs through the interface *)



(** X12. In the runs in which start is invoked only where it is offered,
    a track ended by the platform changes nothing of the component: no
    handler that does anything is attached to any track, so the system
    after the event is the system before it with the track marked as
    ended. *)
Theorem track_ended_is_ignored (es : list Event) (t : nat) (flush : Blob) :
  starts_when start_offered es init = true ->
  step (EvEnded t flush) (run es init) =
  with_world (fun w => set_ended (t :: ended w) w) (run es init).
Proof.
  intros Hes.
  assert (HO : One (run es init)).
  { apply (One_run start_offered); [| apply One_init | exact Hes].
    intros x Hx. apply offered_start in Hx. tauto. }
  destruct (Urls_run es init Urls_init) as (Hdc & _).
  set (s := run es init) in *.
  unfold step. cbn [handle]. unfold fire_ended. cbn.
  destruct (find _ _) as [[t' c]|] eqn:Hfind.
  - apply find_some in Hfind as [Hin _].
    apply (one_handlers _ _ _ _ HO) in Hin. cbn in Hin. subst c.
    apply effect_idle. exact Hdc.
  - apply effect_idle. exact Hdc.
Qed.

Lemma track_ended_is_ignored_witness :
  let es := [EvStart (granting 1); EvData 0 (mkBlob ["001"%byte] "video/webm")] in
  isRecording (st (step (EvEnded 0 (mkBlob [] "video/webm")) (run es init))) = true.
Proof.
  cbv zeta.
  rewrite (track_ended_is_ignored
             [EvStart (granting 1); EvData 0 (mkBlob ["001"%byte] "video/webm")]
             0 (mkBlob [] "video/webm") ltac:(vm_compute; reflexivity)).
  vm_compute. reflexivity.
Defined.

(** ** A whole cycle *)

(** X13. At any point of any run, a complete cycle -- a start on a
    granting platform, the segments of its recorder, a stop, a reset --
    brings the React state back to what it was when the component was
    mounted, with no object URL left. *)
Theorem cycle_returns_to_initial (es : list Event) (n : nat) (datas : list Blob)
    (flush : Blob) :
  let s := run es init in
  let r := length (recorders (world s)) in
  let s' := run (EvStart (granting n) :: map (EvData r) datas ++ [EvStop flush; EvReset]) s in
  st s' = st init /\ urls (world s') = [].
Proof.
  cbv zeta. set (s := run es init).
  set (cycle := EvStart (granting n) :: map (EvData (length (recorders (world s)))) datas).
  assert (Hrun : run (cycle ++ [EvStop flush; EvReset]) s =
                 step EvReset (step (EvStop flush) (run cycle s))).
  { unfold run. rewrite fold_left_app. reflexivity. }
  change (EvStart (granting n)
            :: map (EvData (length (recorders (world s)))) datas ++ [EvStop flush; EvReset])
    with (cycle ++ [EvStop flush; EvReset]).
  rewrite Hrun.
  destruct (session_artifact n datas flush s) as (_ & _ & _ & _ & Hoff & _).
  cbv zeta in Hoff. fold cycle in Hoff.
  set (s2 := step (EvStop flush) (run cycle s)) in *.
  assert (HU : Urls (step EvReset s2)).
  { apply Urls_step, Urls_step, Urls_run, Urls_run, Urls_init. }
  destruct (effect_frame (handle EvReset s2)) as ((H1 & H2 & H3 & H4) & _).
  fold (step EvReset s2) in H1, H2, H3, H4.
  cbn in H1, H2, H3, H4. rewrite Hoff in H1.
  destruct HU as (_ & HU). rewrite H2 in HU. destruct HU as (_ & H5 & H6).
  split; [|exact H6].
  destruct (st (step EvReset s2)) as [ir rb er sta pv]. cbn in *. subst. reflexivity.
Qed.
